(** * pogrep: searching translations in .po catalogs

    A shallow embedding of [pogrep.py] and the properties of its search and
    presentation pipeline.

    The program leans on three libraries that are not part of the repository:
    [regex] (pattern matching), [polib] (catalog parsing) and [tabulate] /
    [textwrap] (layout).  They are interfaces here: a type class for the
    regular-expression library, section variables for the file system, the
    catalog parser and the layout functions.  Python's [str] is modelled by
    [string]; the modelled texts are ASCII. *)

From Stdlib Require Import String Ascii List ZArith Lia Bool DecimalString.
From stdpp Require Import gmap strings list.
Import ListNotations.

Local Open Scope string_scope.
Local Open Scope list_scope.

(** ** Exceptions, results and the trace of effects *)

(** What a run does to the outside world, in order: a catalog handed to
    [polib.pofile], a line printed on standard output, a line printed on
    standard error. *)
Inductive event :=
| Parse (filename : string)
| Out (text : string)
| Err (text : string).

(** The exceptions that the program lets escape: [regex.error], the
    [ValueError] of [textwrap.fill], the [UnicodeDecodeError] of a catalog
    whose bytes do not decode, and the [SystemExit] of [sys.exit]. *)
Inductive exn :=
| RegexError
| ValueError
| UnicodeDecodeError
| SystemExit (status : Z).

Inductive result (A : Type) :=
| Ret (a : A)
| Raise (e : exn).
Arguments Ret {A} a.
Arguments Raise {A} e.

Definition rbind {A B} (r : result A) (k : A -> result B) : result B :=
  match r with
  | Ret a => k a
  | Raise e => Raise e
  end.

(** A computation with effects: the events it performed and how it ended. *)
Definition io (A : Type) : Type := (list event * result A)%type.

Definition io_ret {A} (a : A) : io A := ([], Ret a).
Definition io_raise {A} (e : exn) : io A := ([], Raise e).
Definition io_emit (ev : event) : io unit := ([ev], Ret tt).
Definition io_lift {A} (r : result A) : io A := ([], r).
Definition io_bind {A B} (m : io A) (k : A -> io B) : io B :=
  match m with
  | (tr, Ret a) => let '(tr', r) := k a in (tr ++ tr', r)
  | (tr, Raise e) => (tr, Raise e)
  end.

Declare Scope io_scope.
Delimit Scope io_scope with io.
Notation "'let!' x ':=' m 'in' k" := (io_bind m (fun x => k))
  (at level 10, x name, k at level 200) : io_scope.
Notation "'run!' m 'in' k" := (io_bind m (fun _ => k))
  (at level 10, k at level 200) : io_scope.

Declare Scope result_scope.
Delimit Scope result_scope with result.
Notation "'let!' x ':=' m 'in' k" := (rbind m (fun x => k))
  (at level 10, x name, k at level 200) : result_scope.

Definition trace {A} (m : io A) : list event := fst m.
Definition outcome {A} (m : io A) : result A := snd m.

(** The lines a trace put on standard output, on standard error, and the
    catalogs it opened. *)
Definition stdout_of (tr : list event) : list string :=
  flat_map (fun ev => match ev with Out s => [s] | _ => [] end) tr.
Definition stderr_of (tr : list event) : list string :=
  flat_map (fun ev => match ev with Err s => [s] | _ => [] end) tr.
Definition parsed_of (tr : list event) : list string :=
  flat_map (fun ev => match ev with Parse f => [f] | _ => [] end) tr.

(** ** The regular-expression library *)

Module regex.

(** What the program uses of the [regex] module.  [regex.search] and
    [regex.sub] take the pattern as a string and compile it on the way;
    compiling is where a malformed pattern raises [regex.error]. *)
Class Lib := {
  compiled : Type;
  (** [None]: the pattern does not compile. *)
  compile : string -> option compiled;
  (** Truth value of [compiled.search(text)]. *)
  search_c : compiled -> string -> bool;
  (** [compiled.sub(repl, text, count)], [count = 0] meaning every match;
      [None]: the replacement template is rejected. *)
  sub_c : compiled -> string -> string -> nat -> option string;
  escape : string -> string
}.

Section Api.
Context {L : Lib}.

Definition search (pattern text : string) : result bool :=
  match compile pattern with
  | Some p => Ret (search_c p text)
  | None => Raise RegexError
  end.

Definition sub (pattern repl text : string) (count : nat) : result string :=
  match compile pattern with
  | Some p =>
      match sub_c p repl text count with
      | Some s => Ret s
      | None => Raise RegexError
      end
  | None => Raise RegexError
  end.
End Api.

End regex.

(** ** Catalogs *)

Module polib.
(** An entry of a catalog, as [polib] hands it over. *)
Record POEntry := {
  msgid : string;
  msgstr : string;
  linenum : Z
}.

(** What [polib.pofile] does with a file: it returns the entries in file
    order, or raises [OSError], or raises something else (on bytes that do
    not decode, [UnicodeDecodeError]). *)
Inductive parsed :=
| Parsed (entries : list POEntry)
| OSError
| Raises (e : exn).

(** A directory in which [polib.pofile] fails with [OSError] only: [None]
    stands for [OSError]. *)
Definition or_oserror (pofile : string -> option (list POEntry))
    (filename : string) : parsed :=
  match pofile filename with
  | Some entries => Parsed entries
  | None => OSError
  end.
End polib.

(** Truth value of a Python string: only the empty string is false. *)
Definition truthy (s : string) : bool :=
  match s with
  | EmptyString => false
  | String _ _ => true
  end.

(** ** Matches *)

Record Match := {
  file : string;
  line : Z;
  msgid : string;
  msgstr : string
}.

Section Search.
Context {L : regex.Lib}.

(** [polib.pofile]. *)
Variable pofile : string -> polib.parsed.

(** The condition of the [if] in [find_in_po], with the short-circuit
    evaluation of [and] and [or]: the pattern is only applied when the
    operand before it lets the evaluation reach it. *)
Definition entry_selected (pattern : string) (not_in_source in_translation : bool)
    (entry : polib.POEntry) : result bool :=
  if truthy (polib.msgstr entry) then
    (let! in_source :=
       (if negb not_in_source
        then regex.search pattern (polib.msgid entry)
        else Ret false) in
     if in_source then Ret true
     else if in_translation
          then regex.search pattern (polib.msgstr entry)
          else Ret false)%result
  else Ret false.

(** The inner loop, [for entry in pofile], on the list [results]. *)
Fixpoint scan_entries (pattern : string) (not_in_source in_translation : bool)
    (filename : string) (entries : list polib.POEntry) (results : list Match)
    : result (list Match) :=
  match entries with
  | [] => Ret results
  | entry :: rest =>
      (let! selected :=
         entry_selected pattern not_in_source in_translation entry in
       scan_entries pattern not_in_source in_translation filename rest
         (if (selected : bool)
          then results ++
               [ {| file := filename;
                    line := polib.linenum entry;
                    msgid := polib.msgid entry;
                    msgstr := polib.msgstr entry |} ]
          else results))%result
  end.

Definition not_a_po_file (filename : string) : string :=
  filename +:+ " doesn't seem to be a .po file".

(** The outer loop, [for filename in path], on [errors] and [results]. *)
Fixpoint scan_files (pattern : string) (not_in_source in_translation : bool)
    (path : list string) (errors : list string) (results : list Match)
    : io (list string * list Match) :=
  match path with
  | [] => io_ret (errors, results)
  | filename :: rest =>
      (run! io_emit (Parse filename) in
       match pofile filename with
       | polib.Raises e => io_raise e
       | polib.OSError =>
           scan_files pattern not_in_source in_translation rest
             (errors ++ [not_a_po_file filename]) results
       | polib.Parsed entries =>
           let! results' :=
             io_lift (scan_entries pattern not_in_source in_translation
                        filename entries results) in
           scan_files pattern not_in_source in_translation rest errors results'
       end)%io
  end.

Definition find_in_po (pattern : string) (path : list string)
    (not_in_source in_translation : bool) : io (list string * list Match) :=
  scan_files pattern not_in_source in_translation path [] [].

End Search.

(** ** Colors *)

(** The four strings that [get_colors] returns, computed once at start-up
    from the terminal description; all four are empty on a terminal without
    colors. *)
Record Colors := {
  RED : string;
  GREEN : string;
  MAGENTA : string;
  NO_COLOR : string
}.

(** Python's [needle in hay] on strings. *)
Fixpoint contains (needle hay : string) : bool :=
  String.prefix needle hay ||
  match hay with
  | EmptyString => false
  | String _ rest => contains needle rest
  end.

Section Highlight.
Context {L : regex.Lib}.
Variable colors : Colors.

(** The loop [for pnum, pfile in prefixes] of [colorize], on [result]. *)
Fixpoint colorize_prefixes (pattern : string) (prefixes : list (string * string))
    (res : string) : result string :=
  match prefixes with
  | [] => Ret res
  | (pnum, pfile) :: rest =>
      (let prefix := " " +:+ pfile +:+ pnum in
       let! colored :=
         regex.sub pattern (RED colors +:+ "\g<0>" +:+ NO_COLOR colors) prefix 0 in
       let prefix_colored := regex.escape colored in
       let prefix :=
         if contains (regex.escape (RED colors)) prefix_colored
         then prefix_colored else prefix in
       let prefix_replace :=
         " " +:+ MAGENTA colors +:+ pfile +:+ GREEN colors +:+ pnum
             +:+ NO_COLOR colors in
       let! res' := regex.sub prefix prefix_replace res 1 in
       colorize_prefixes pattern rest res')%result
  end.

Definition colorize (text pattern : string) (prefixes : list (string * string))
    : result string :=
  (let! res :=
     regex.sub pattern (RED colors +:+ "\g<0>" +:+ NO_COLOR colors) text 0 in
   colorize_prefixes pattern prefixes res)%result.

End Highlight.

(** ** Rendering *)

(** Python's [str] on an [int]. *)
Definition str (n : Z) : string := NilZero.string_of_int (Z.to_int n).

Definition print (text : string) : io unit := io_emit (Out text).
Definition print_stderr (text : string) : io unit := io_emit (Err text).

Fixpoint print_each (printer : string -> io unit) (lines : list string) : io unit :=
  match lines with
  | [] => io_ret tt
  | l :: rest => (run! printer l in print_each printer rest)%io
  end.

Section Display.
Context {L : regex.Lib}.
Variable colors : Colors.

(** [get_terminal_size()[0]], [textwrap.fill] (which raises [ValueError]
    on a width that is not positive) and [tabulate] with the [fancy_grid]
    format on rows of two cells. *)
Variable term_width : Z.
Variable fill : string -> Z -> result string.
Variable tabulate : list (string * string) -> string.

(** The loop [for match in matches] of [display_results], on [prefixes]
    and [table]; [nfiles] is [len(files)]. *)
Fixpoint layout (matches : list Match) (line_number : bool) (nfiles : nat)
    (prefixes : list (string * string)) (table : list (string * string))
    : result (list (string * string) * list (string * string)) :=
  match matches with
  | [] => Ret (prefixes, table)
  | m :: rest =>
      (let left := msgid m in
       let pnum := str (line m) +:+ ":" in
       let pfile := if (1 <? nfiles)%nat then file m +:+ ":" else "" in
       let left := if line_number then pfile +:+ pnum +:+ left else left in
       let prefixes :=
         if line_number then prefixes ++ [(pnum, pfile)] else prefixes in
       let! l := fill left ((term_width - 7) `div` 2)%Z in
       let! r := fill (msgstr m) ((term_width - 7) `div` 2)%Z in
       layout rest line_number nfiles prefixes (table ++ [(l, r)]))%result
  end.

Definition display_results (matches : list Match) (pattern : string)
    (line_number files_with_matches : bool) : io unit :=
  let files : gset string := list_to_set (map file matches) in
  if files_with_matches then
    print_each (fun f => print (MAGENTA colors +:+ f +:+ NO_COLOR colors))
               (elements files)
  else
    (let! pt := io_lift (layout matches line_number (size files) [] []) in
     let! text := io_lift (colorize colors (tabulate (snd pt)) pattern (fst pt)) in
     print text)%io.

End Display.

(** ** Paths *)

Section Paths.
(** The file system as the run sees it: [os.path.isfile], [os.path.isdir],
    [glob.glob(_, recursive=True)], [os.sep] and [sys.argv[0]]. *)
Variable isfile : string -> bool.
Variable isdir : string -> bool.
Variable glob : string -> list string.
Variable os_sep : ascii.
Variable argv0 : string.

Definition sep : string := String os_sep EmptyString.

(** The loop [for elt in path] of [process_path], on [files]. *)
Fixpoint process_elts (path : list string) (recursive : bool) (files : list string)
    : io (list string) :=
  match path with
  | [] => io_ret files
  | elt :: rest =>
      if isfile elt then process_elts rest recursive (files ++ [elt])
      else if isdir elt then
        if recursive
        then process_elts rest recursive (files ++ glob (elt +:+ sep +:+ "**/*.po"))
        else (run! print_stderr (argv0 +:+ ": " +:+ elt +:+ ": Is a directory") in
              io_raise (SystemExit 1))%io
      else (run! print_stderr
                   (argv0 +:+ ": " +:+ elt +:+ ": No such file or directory") in
            io_raise (SystemExit 1))%io
  end.

Definition process_path (path : list string) (recursive : bool) : io (list string) :=
  if (length path =? 0)%nat then
    if negb recursive then io_raise (SystemExit 0)
    else io_ret (glob "**/*.po")
  else process_elts path recursive [].

End Paths.

(** ** Command line *)

Module argparse.
(** The namespace that [parse_args] returns. *)
Record Namespace := {
  fixed_strings : bool;
  ignore_case : bool;
  word_regexp : bool;
  line_number : bool;
  files_with_matches : bool;
  no_messages : bool;
  recursive : bool;
  translation : bool;
  no_source : bool;
  exclude_dir : option string;
  pattern : string;
  path : list string
}.
End argparse.

(** [s.rstrip(c)] for a one-character [c]. *)
Fixpoint rstrip (c : ascii) (s : string) : string :=
  match s with
  | EmptyString => EmptyString
  | String a rest =>
      match rstrip c rest with
      | EmptyString => if Ascii.eqb a c then EmptyString else String a EmptyString
      | rest' => String a rest'
      end
  end.

Section Main.
Context {L : regex.Lib}.
Variable colors : Colors.
Variable pofile : string -> polib.parsed.
Variable term_width : Z.
Variable fill : string -> Z -> result string.
Variable tabulate : list (string * string) -> string.
Variable isfile : string -> bool.
Variable isdir : string -> bool.
Variable glob : string -> list string.
Variable os_sep : ascii.
Variable argv0 : string.

(** The three assignments to [args.pattern] at the head of [main]. *)
Definition build_pattern (raw : string) (fixed_strings word_regexp ignore_case : bool)
    : string :=
  let pattern := raw in
  let pattern := if fixed_strings then regex.escape pattern else pattern in
  let pattern := if word_regexp then "\b" +:+ pattern +:+ "\b" else pattern in
  let pattern := if ignore_case then "(?i)" +:+ pattern else pattern in
  pattern.

(** The filter on [files] under [if args.exclude_dir]. *)
Definition exclude (exclude_dir : option string) (files : list string) : list string :=
  match exclude_dir with
  | Some dir =>
      if truthy dir
      then List.filter (fun f => negb (contains (rstrip os_sep dir +:+ sep os_sep) f)) files
      else files
  | None => files
  end.

Definition main (args : argparse.Namespace) : io unit :=
  (let pattern :=
     build_pattern (argparse.pattern args) (argparse.fixed_strings args)
                   (argparse.word_regexp args) (argparse.ignore_case args) in
   let! files :=
     process_path isfile isdir glob os_sep argv0
                  (argparse.path args) (argparse.recursive args) in
   let files := exclude (argparse.exclude_dir args) files in
   let! found :=
     find_in_po pofile pattern files (argparse.no_source args)
                (argparse.translation args) in
   run! (if argparse.no_messages args then io_ret tt
         else print_each print_stderr (fst found)) in
   display_results colors term_width fill tabulate (snd found) pattern
                   (argparse.line_number args) (argparse.files_with_matches args))%io.

End Main.

(** ** A reference implementation of a fragment of the dialect

    The properties of the pipeline hold for any implementation of
    [regex.Lib].  To run the program on concrete inputs, this module
    implements the fragment of the dialect made of literal characters, [.],
    escaped punctuation, the assertions [\b] and [\B], grouping, alternation
    and the greedy quantifiers [*], [+] and [?], with the backtracking
    semantics of the dialect (leftmost match, alternatives in order).
    [parse] tells a pattern of the fragment ([Parsed]) from a pattern that
    the dialect rejects ([Malformed]) and from one that the fragment does
    not cover ([Unsupported]); the instance is only meant to be used on the
    first two. *)

Module MiniRegex.

Inductive re :=
| Eps
| Chr (c : ascii)
| Dot
| WordB
| NotWordB
| Cat (r s : re)
| Alt (r s : re)
| Star (r : re).

Inductive parsed :=
| Parsed (r : re)
| Malformed
| Unsupported.

Definition in_range (lo hi : nat) (c : ascii) : bool :=
  let n := nat_of_ascii c in (lo <=? n)%nat && (n <=? hi)%nat.

Definition is_alnum (c : ascii) : bool :=
  in_range 48 57 c || in_range 65 90 c || in_range 97 122 c.

Definition is_word (c : ascii) : bool := is_alnum c || Ascii.eqb c "_"%char.

Definition is_space (c : ascii) : bool :=
  in_range 9 13 c || in_range 28 32 c.

(** *** Parsing *)

(** A branch under construction: the alternatives already closed by a
    [|], the atoms of the current alternative but the last, and the last
    atom with a mark telling whether it carries a quantifier. *)
Record frame := {
  alts : option re;
  atoms : re;
  last : option (re * bool)
}.

Definition empty_frame : frame := {| alts := None; atoms := Eps; last := None |}.

Definition cat (r s : re) : re :=
  match r with
  | Eps => s
  | _ => Cat r s
  end.

Definition frame_seq (f : frame) : re :=
  match last f with
  | Some (a, _) => cat (atoms f) a
  | None => atoms f
  end.

Definition frame_re (f : frame) : re :=
  match alts f with
  | Some a => Alt a (frame_seq f)
  | None => frame_seq f
  end.

Definition push_atom (f : frame) (a : re) : frame :=
  {| alts := alts f; atoms := frame_seq f; last := Some (a, false) |}.

Record pstate := {
  outer : list frame;
  cur : frame;
  escaped : bool;
  opened : bool
}.

Definition with_cur (st : pstate) (f : frame) : pstate :=
  {| outer := outer st; cur := f; escaped := false; opened := false |}.

Definition quantify (c : ascii) (a : re) : re :=
  if Ascii.eqb c "*"%char then Star a
  else if Ascii.eqb c "+"%char then Cat a (Star a)
  else Alt a Eps.

Definition step (st : pstate) (c : ascii) : pstate + parsed :=
  if escaped st then
    if Ascii.eqb c "b"%char then inl (with_cur st (push_atom (cur st) WordB))
    else if Ascii.eqb c "B"%char then inl (with_cur st (push_atom (cur st) NotWordB))
    else if is_alnum c then inr Unsupported
    else inl (with_cur st (push_atom (cur st) (Chr c)))
  else
    match c with
    | "\"%char =>
        inl {| outer := outer st; cur := cur st; escaped := true; opened := false |}
    | "("%char =>
        inl {| outer := cur st :: outer st; cur := empty_frame;
               escaped := false; opened := true |}
    | ")"%char =>
        match outer st with
        | [] => inr Malformed
        | parent :: rest =>
            inl {| outer := rest; cur := push_atom parent (frame_re (cur st));
                   escaped := false; opened := false |}
        end
    | "|"%char =>
        inl (with_cur st {| alts := Some (frame_re (cur st));
                            atoms := Eps; last := None |})
    | "*"%char | "+"%char | "?"%char =>
        if opened st && Ascii.eqb c "?"%char then inr Unsupported
        else
          match last (cur st) with
          | None => inr Malformed
          | Some (_, true) => inr Unsupported
          | Some (a, false) =>
              inl (with_cur st {| alts := alts (cur st); atoms := atoms (cur st);
                                  last := Some (quantify c a, true) |})
          end
    | "."%char => inl (with_cur st (push_atom (cur st) Dot))
    | "["%char | "]"%char | "{"%char | "}"%char | "^"%char | "$"%char =>
        inr Unsupported
    | _ => inl (with_cur st (push_atom (cur st) (Chr c)))
    end.

Fixpoint parse_from (st : pstate) (s : list ascii) : parsed :=
  match s with
  | [] =>
      if escaped st then Malformed
      else match outer st with
           | [] => Parsed (frame_re (cur st))
           | _ :: _ => Malformed
           end
  | c :: rest =>
      match step st c with
      | inl st' => parse_from st' rest
      | inr stop => stop
      end
  end.

Definition parse (pattern : string) : parsed :=
  parse_from {| outer := []; cur := empty_frame; escaped := false; opened := false |}
             (list_ascii_of_string pattern).

(** *** Matching *)

Definition word_before (prev : option ascii) : bool :=
  match prev with
  | Some c => is_word c
  | None => false
  end.

Definition word_after (s : list ascii) : bool :=
  match s with
  | c :: _ => is_word c
  | [] => false
  end.

Definition at_boundary (prev : option ascii) (s : list ascii) : bool :=
  xorb (word_before prev) (word_after s).

(** Backtracking matcher: [prev] is the character before the current
    position, [s] the text from it on, [k] what has to match after [r]. *)
Fixpoint m {A} (r : re) (prev : option ascii) (s : list ascii)
    (k : option ascii -> list ascii -> option A) : option A :=
  match r with
  | Eps => k prev s
  | Chr c =>
      match s with
      | a :: s' => if Ascii.eqb a c then k (Some a) s' else None
      | [] => None
      end
  | Dot =>
      match s with
      | a :: s' => if Ascii.eqb a "010"%char then None else k (Some a) s'
      | [] => None
      end
  | WordB => if at_boundary prev s then k prev s else None
  | NotWordB => if at_boundary prev s then None else k prev s
  | Cat r1 r2 => m r1 prev s (fun p s' => m r2 p s' k)
  | Alt r1 r2 =>
      match m r1 prev s k with
      | Some x => Some x
      | None => m r2 prev s k
      end
  | Star r1 =>
      (fix star (n : nat) (prev : option ascii) (s : list ascii) : option A :=
         match n with
         | O => k prev s
         | S n' =>
             match m r1 prev s
                     (fun p s' =>
                        if (length s' <? length s)%nat then star n' p s'
                        else k p s') with
             | Some x => Some x
             | None => k prev s
             end
         end) (S (length s)) prev s
  end.

(** Length of the match of [r] that starts at the current position. *)
Definition match_here (r : re) (prev : option ascii) (s : list ascii) : option nat :=
  m r prev s (fun _ s' => Some (length s - length s')%nat).

(** The same, for a match that is not empty. *)
Definition match_here_nonempty (r : re) (prev : option ascii) (s : list ascii)
    : option nat :=
  m r prev s (fun _ s' =>
                if (length s' <? length s)%nat
                then Some (length s - length s')%nat else None).

(** Leftmost match from the current position on: how many characters
    come before it and how long it is. *)
Fixpoint find (r : re) (prev : option ascii) (s : list ascii) : option (nat * nat) :=
  match match_here r prev s with
  | Some n => Some (O, n)
  | None =>
      match s with
      | [] => None
      | a :: s' =>
          match find r (Some a) s' with
          | Some (i, n) => Some (S i, n)
          | None => None
          end
      end
  end.

Definition first_match (r : re) (text : string) : option (nat * nat) :=
  find r None (list_ascii_of_string text).

Definition search_c (r : re) (text : string) : bool :=
  match first_match r text with
  | Some _ => true
  | None => false
  end.

(** *** Substitution *)

(** The replacement template: [\g<0>] stands for the match, [\\] for a
    backslash; no other escape is in the fragment. *)
Fixpoint expand (repl matched : list ascii) : option (list ascii) :=
  match repl with
  | [] => Some []
  | "\"%char :: "g"%char :: "<"%char :: "0"%char :: ">"%char :: rest =>
      match expand rest matched with
      | Some out => Some (matched ++ out)
      | None => None
      end
  | "\"%char :: "\"%char :: rest =>
      match expand rest matched with
      | Some out => Some ("\"%char :: out)
      | None => None
      end
  | "\"%char :: _ => None
  | c :: rest =>
      match expand rest matched with
      | Some out => Some (c :: out)
      | None => None
      end
  end.

Definition expand_total (repl matched : list ascii) : list ascii :=
  match expand repl matched with
  | Some out => out
  | None => []
  end.

Definition spend (budget : option nat) : option nat :=
  match budget with
  | Some n => Some (pred n)
  | None => None
  end.

Definition exhausted (budget : option nat) : bool :=
  match budget with
  | Some O => true
  | _ => false
  end.

(** What happens at a position that no earlier match covers: the text
    put out there, the length of the match that starts there, and the
    replacements left.  An empty match is followed by a second attempt at
    the same position, for a match that is not empty. *)
Definition at_position (r : re) (repl : list ascii) (prev : option ascii)
    (s : list ascii) (budget : option nat) : list ascii * nat * option nat :=
  if exhausted budget then ([], O, budget)
  else
    match match_here r prev s with
    | None => ([], O, budget)
    | Some (S n) => (expand_total repl (take (S n) s), S n, spend budget)
    | Some O =>
        let out := expand_total repl [] in
        let budget := spend budget in
        if exhausted budget then (out, O, budget)
        else
          match match_here_nonempty r prev s with
          | Some n => (out ++ expand_total repl (take n s), n, spend budget)
          | None => (out, O, budget)
          end
    end.

(** Left-to-right replacement of the matches that do not overlap;
    [skip] counts the characters still covered by the last match. *)
Fixpoint sub_loop (r : re) (repl : list ascii) (prev : option ascii)
    (s : list ascii) (skip : nat) (budget : option nat) : list ascii :=
  match skip with
  | S skip' =>
      match s with
      | [] => []
      | a :: s' => sub_loop r repl (Some a) s' skip' budget
      end
  | O =>
      let '(out, covered, budget') := at_position r repl prev s budget in
      out ++
      match s with
      | [] => []
      | a :: s' =>
          match covered with
          | O => a :: sub_loop r repl (Some a) s' O budget'
          | S c => sub_loop r repl (Some a) s' c budget'
          end
      end
  end.

Definition sub_c (r : re) (repl text : string) (count : nat) : option string :=
  let repl := list_ascii_of_string repl in
  match expand repl [] with
  | None => None
  | Some _ =>
      Some (string_of_list_ascii
              (sub_loop r repl None (list_ascii_of_string text) O
                        (match count with O => None | S _ => Some count end)))
  end.

(** *** Escaping *)

Definition is_metachar (c : ascii) : bool :=
  contains (String c EmptyString) "()[]{}?*+|^$\.-#&~".

(** [regex.escape] with its defaults: a backslash before the special
    characters and the white space. *)
Fixpoint escape (s : string) : string :=
  match s with
  | EmptyString => EmptyString
  | String c rest =>
      if is_metachar c || is_space c then String "\"%char (String c (escape rest))
      else if Ascii.eqb c "000"%char then "\000" +:+ escape rest
      else String c (escape rest)
  end.

Definition compile (pattern : string) : option re :=
  match parse pattern with
  | Parsed r => Some r
  | Malformed | Unsupported => None
  end.

#[export] Instance lib : regex.Lib := {|
  regex.compiled := re;
  regex.compile := compile;
  regex.search_c := search_c;
  regex.sub_c := sub_c;
  regex.escape := escape
|}.

End MiniRegex.

(** ** Vocabulary of the properties *)

Section Vocabulary.
Context {L : regex.Lib}.
Variable pofile : string -> option (list polib.POEntry).

(** The match predicate on a record, for a pattern that compiled. *)
Definition selects (p : regex.compiled) (not_in_source in_translation : bool)
    (entry : polib.POEntry) : bool :=
  truthy (polib.msgstr entry) &&
  ((negb not_in_source && regex.search_c p (polib.msgid entry)) ||
   (in_translation && regex.search_c p (polib.msgstr entry))).

(** Whether evaluating the condition on a record applies the pattern. *)
Definition applies (not_in_source in_translation : bool) (entry : polib.POEntry)
    : bool :=
  truthy (polib.msgstr entry) && (negb not_in_source || in_translation).

Definition to_match (filename : string) (entry : polib.POEntry) : Match :=
  {| file := filename;
     line := polib.linenum entry;
     msgid := polib.msgid entry;
     msgstr := polib.msgstr entry |}.

(** The selected records of one file, in the order of the file. *)
Definition matches_of_file (p : regex.compiled) (not_in_source in_translation : bool)
    (filename : string) : list Match :=
  match pofile filename with
  | Some entries =>
      map (to_match filename)
          (List.filter (selects p not_in_source in_translation) entries)
  | None => []
  end.

(** The files one after the other, in the order of the list. *)
Definition matches_of (p : regex.compiled) (not_in_source in_translation : bool)
    (path : list string) : list Match :=
  flat_map (matches_of_file p not_in_source in_translation) path.

(** One warning for each file that [polib] does not read. *)
Definition warnings (path : list string) : list string :=
  flat_map (fun filename =>
              match pofile filename with
              | Some _ => []
              | None => [not_a_po_file filename]
              end) path.

(** Whether the scan of the files applies the pattern at all. *)
Definition pattern_applied (not_in_source in_translation : bool)
    (path : list string) : bool :=
  existsb (fun filename =>
             match pofile filename with
             | Some entries => existsb (applies not_in_source in_translation) entries
             | None => false
             end) path.

End Vocabulary.

(** A path that stops [process_path]: neither a file nor, under [-r], a
    directory. *)
Definition offending (isfile isdir : string -> bool) (recursive : bool)
    (elt : string) : bool :=
  negb (isfile elt) && (negb (isdir elt) || negb recursive).

(** The files that the paths stand for, when none of them is offending. *)
Definition resolved (isfile : string -> bool) (glob : string -> list string)
    (os_sep : ascii) (path : list string) : list string :=
  flat_map (fun elt =>
              if isfile elt then [elt]
              else glob (elt +:+ sep os_sep +:+ "**/*.po")) path.

Definition path_error (isdir : string -> bool) (argv0 elt : string) : string :=
  argv0 +:+ ": " +:+ elt +:+
  (if isdir elt then ": Is a directory" else ": No such file or directory").

(** Removal of the color strings from a text, left to right; [skip] counts
    the characters of the color string being removed. *)
Fixpoint strip_from (codes : list string) (s : string) (skip : nat) : string :=
  match s with
  | EmptyString => EmptyString
  | String c rest =>
      match skip with
      | S k => strip_from codes rest k
      | O =>
          match List.find (fun code => truthy code && String.prefix code s) codes with
          | Some code => strip_from codes rest (pred (String.length code))
          | None => String c (strip_from codes rest O)
          end
      end
  end.

Definition strip_colors (colors : Colors) (s : string) : string :=
  strip_from [RED colors; GREEN colors; MAGENTA colors; NO_COLOR colors] s O.

(** Replacement of the first occurrence of a literal [needle] in a text. *)
Fixpoint replace_first (needle repl text : string) : string :=
  if String.prefix needle text
  then repl +:+ String.substring (String.length needle)
                  (String.length text - String.length needle) text
  else match text with
       | EmptyString => EmptyString
       | String c rest => String c (replace_first needle repl rest)
       end.

(** The prefix pass as the documentation of [colorize] describes it: the
    first occurrence of each literal prefix gets the two colors. *)
Fixpoint color_prefixes_literally (colors : Colors) (prefixes : list (string * string))
    (text : string) : string :=
  match prefixes with
  | [] => text
  | (pnum, pfile) :: rest =>
      color_prefixes_literally colors rest
        (replace_first (" " +:+ pfile +:+ pnum)
           (" " +:+ MAGENTA colors +:+ pfile +:+ GREEN colors +:+ pnum
                +:+ NO_COLOR colors) text)
  end.

(** ** Concrete inputs *)

Definition ESC : string := String (ascii_of_nat 27) EmptyString.

(** The colors of an xterm: [setaf] 1, 2 and 5, and [sgr0]. *)
Definition xterm : Colors := {|
  RED := ESC +:+ "[31m";
  GREEN := ESC +:+ "[32m";
  MAGENTA := ESC +:+ "[35m";
  NO_COLOR := ESC +:+ "(B" +:+ ESC +:+ "[m"
|}.

(** A terminal without colors. *)
Definition no_colors : Colors :=
  {| RED := ""; GREEN := ""; MAGENTA := ""; NO_COLOR := "" |}.

(** ** Sample catalogs *)

(** [a.po] holds a translated entry and an entry without translation;
    [b.po] holds two translated entries; [fresh.po] holds an entry that
    nobody translated yet; no other file is a catalog. *)
Definition a_po : list polib.POEntry :=
  [ {| polib.msgid := "hello"; polib.msgstr := "bonjour"; polib.linenum := 3 |};
    {| polib.msgid := "world"; polib.msgstr := ""; polib.linenum := 7 |} ].

Definition b_po : list polib.POEntry :=
  [ {| polib.msgid := "category"; polib.msgstr := "categorie"; polib.linenum := 5 |};
    {| polib.msgid := "hello again"; polib.msgstr := "rebonjour"; polib.linenum := 9 |} ].

Definition fresh_po : list polib.POEntry :=
  [ {| polib.msgid := "todo"; polib.msgstr := ""; polib.linenum := 2 |} ].

Definition sample_pofile (filename : string) : option (list polib.POEntry) :=
  if String.eqb filename "a.po" then Some a_po
  else if String.eqb filename "b.po" then Some b_po
  else if String.eqb filename "fresh.po" then Some fresh_po
  else None.

(** The files of the sample directory: the three catalogs, a [README] that
    is no catalog, and the directory [locale]. *)
Definition sample_isfile (elt : string) : bool :=
  String.eqb elt "a.po" || String.eqb elt "b.po" || String.eqb elt "fresh.po"
  || String.eqb elt "README".

Definition sample_isdir (elt : string) : bool := String.eqb elt "locale".

Definition sample_glob (_ : string) : list string := [].

Definition simple_fill (text : string) (width : Z) : result string :=
  if (width <=? 0)%Z then Raise ValueError else Ret text.

Definition simple_tabulate (table : list (string * string)) : string :=
  String.concat (String "010"%char EmptyString)
    (map (fun row => " " +:+ fst row +:+ " | " +:+ snd row) table).

Definition default_args (pattern : string) (path : list string) : argparse.Namespace :=
  {| argparse.fixed_strings := false;
     argparse.ignore_case := false;
     argparse.word_regexp := false;
     argparse.line_number := false;
     argparse.files_with_matches := false;
     argparse.no_messages := false;
     argparse.recursive := false;
     argparse.translation := false;
     argparse.no_source := false;
     argparse.exclude_dir := None;
     argparse.pattern := pattern;
     argparse.path := path |}.

Definition with_files_with_matches (args : argparse.Namespace) : argparse.Namespace :=
  {| argparse.fixed_strings := argparse.fixed_strings args;
     argparse.ignore_case := argparse.ignore_case args;
     argparse.word_regexp := argparse.word_regexp args;
     argparse.line_number := argparse.line_number args;
     argparse.files_with_matches := true;
     argparse.no_messages := argparse.no_messages args;
     argparse.recursive := argparse.recursive args;
     argparse.translation := argparse.translation args;
     argparse.no_source := argparse.no_source args;
     argparse.exclude_dir := argparse.exclude_dir args;
     argparse.pattern := argparse.pattern args;
     argparse.path := argparse.path args |}.

(** A run of [main] in the sample directory, on an xterm of 80 columns,
    with the reference implementation of the dialect. *)
Definition sample_main (args : argparse.Namespace) : io unit :=
  main (L := MiniRegex.lib) xterm (polib.or_oserror sample_pofile) 80
       simple_fill simple_tabulate
       sample_isfile sample_isdir sample_glob "/"%char "pogrep" args.

Definition compiled_or_eps (pattern : string) : MiniRegex.re :=
  match MiniRegex.parse pattern with
  | MiniRegex.Parsed r => r
  | _ => MiniRegex.Eps
  end.

Definition re_hello : MiniRegex.re := Eval vm_compute in compiled_or_eps "hello".

(** ** Further vocabulary *)

(** A catalog parser that drops the entries without translation. *)
Definition translated_only (pofile : string -> option (list polib.POEntry))
    (filename : string) : option (list polib.POEntry) :=
  match pofile filename with
  | Some entries => Some (List.filter (fun e => truthy (polib.msgstr e)) entries)
  | None => None
  end.

(** Whether the sides searched under the first pair of flags are searched
    under the second pair as well. *)
Definition sides_included (ns tr ns' tr' : bool) : Prop :=
  (ns = false -> ns' = false) /\ (tr = true -> tr' = true).

(** The rows and the prefixes that [display_results] builds, for a
    [textwrap.fill] that turns [s] into [wrap s]; [several] tells whether the
    matches come from more than one file. *)
Definition table_rows (wrap : string -> string) (line_number several : bool)
    (matches : list Match) : list (string * string) :=
  map (fun m => (wrap (if line_number
                       then (if several then file m +:+ ":" else "")
                            +:+ (str (line m) +:+ ":") +:+ msgid m
                       else msgid m),
                 wrap (msgstr m))) matches.

Definition table_prefixes (line_number several : bool) (matches : list Match)
    : list (string * string) :=
  if line_number
  then map (fun m => (str (line m) +:+ ":",
                      if several then file m +:+ ":" else "")) matches
  else [].


Definition with_exclude_dir (dir : string) (args : argparse.Namespace)
    : argparse.Namespace :=
  {| argparse.fixed_strings := argparse.fixed_strings args;
     argparse.ignore_case := argparse.ignore_case args;
     argparse.word_regexp := argparse.word_regexp args;
     argparse.line_number := argparse.line_number args;
     argparse.files_with_matches := argparse.files_with_matches args;
     argparse.no_messages := argparse.no_messages args;
     argparse.recursive := argparse.recursive args;
     argparse.translation := argparse.translation args;
     argparse.no_source := argparse.no_source args;
     argparse.exclude_dir := Some dir;
     argparse.pattern := argparse.pattern args;
     argparse.path := argparse.path args |}.

Definition with_sides (no_source translation : bool) (args : argparse.Namespace)
    : argparse.Namespace :=
  {| argparse.fixed_strings := argparse.fixed_strings args;
     argparse.ignore_case := argparse.ignore_case args;
     argparse.word_regexp := argparse.word_regexp args;
     argparse.line_number := argparse.line_number args;
     argparse.files_with_matches := argparse.files_with_matches args;
     argparse.no_messages := argparse.no_messages args;
     argparse.recursive := argparse.recursive args;
     argparse.translation := translation;
     argparse.no_source := no_source;
     argparse.exclude_dir := argparse.exclude_dir args;
     argparse.pattern := argparse.pattern args;
     argparse.path := argparse.path args |}.

(** A second sample directory, with catalogs below [locale/]. *)
Definition tree_isfile (elt : string) : bool :=
  String.eqb elt "a.po" || String.eqb elt "locale/fr/b.po"
  || String.eqb elt "locale/de/b.po".

Definition tree_glob (pattern : string) : list string :=
  if String.eqb pattern "locale/**/*.po" then ["locale/fr/b.po"; "locale/de/b.po"]
  else if String.eqb pattern "**/*.po" then ["a.po"; "locale/fr/b.po"; "locale/de/b.po"]
  else [].

Definition tree_pofile (filename : string) : option (list polib.POEntry) :=
  if String.eqb filename "a.po" then Some a_po
  else if String.eqb filename "locale/fr/b.po" then Some b_po
  else if String.eqb filename "locale/de/b.po" then Some b_po
  else None.

Definition two_matches : list Match :=
  [ {| file := "a.po"; line := 3; msgid := "hello"; msgstr := "bonjour" |};
    {| file := "b.po"; line := 9; msgid := "hello again"; msgstr := "rebonjour" |} ].

Definition tree_main (args : argparse.Namespace) : io unit :=
  main (L := MiniRegex.lib) xterm (polib.or_oserror tree_pofile) 80
       simple_fill simple_tabulate
       tree_isfile sample_isdir tree_glob "/"%char "pogrep" args.

(** ** The scan with any parser *)

(** What stops the scan at a file: an exception of [polib.pofile] other than
    [OSError], or, when the pattern is malformed, a record to which the
    pattern is applied. *)
Definition halts (malformed not_in_source in_translation : bool)
    (pofile : string -> polib.parsed) (filename : string) : option exn :=
  match pofile filename with
  | polib.Raises e => Some e
  | polib.Parsed entries =>
      if malformed && existsb (applies not_in_source in_translation) entries
      then Some RegexError else None
  | polib.OSError => None
  end.

Definition malformed {L : regex.Lib} (pattern : string) : bool :=
  match regex.compile pattern with
  | Some _ => false
  | None => true
  end.

(** One warning for each file on which [polib.pofile] raises [OSError]. *)
Definition refusals (pofile : string -> polib.parsed) (path : list string)
    : list string :=
  flat_map (fun filename =>
              match pofile filename with
              | polib.OSError => [not_a_po_file filename]
              | _ => []
              end) path.

(** The catalogs that [polib.pofile] reads. *)
Definition readable (pofile : string -> polib.parsed) (filename : string)
    : option (list polib.POEntry) :=
  match pofile filename with
  | polib.Parsed entries => Some entries
  | _ => None
  end.

(** The matches of the files, for a pattern that compiles; none for a
    malformed pattern. *)
Definition found_by {L : regex.Lib} (pofile : string -> polib.parsed)
    (pattern : string) (not_in_source in_translation : bool) (path : list string)
    : list Match :=
  match regex.compile pattern with
  | Some p => matches_of (readable pofile) p not_in_source in_translation path
  | None => []
  end.

(** The sample directory with one more file, [binary.po], whose bytes do
    not decode. *)
Definition binary_pofile (filename : string) : polib.parsed :=
  if String.eqb filename "binary.po" then polib.Raises UnicodeDecodeError
  else polib.or_oserror sample_pofile filename.

Definition binary_isfile (elt : string) : bool :=
  String.eqb elt "binary.po" || sample_isfile elt.

Definition binary_main (args : argparse.Namespace) : io unit :=
  main (L := MiniRegex.lib) xterm binary_pofile 80 simple_fill simple_tabulate
       binary_isfile sample_isdir sample_glob "/"%char "pogrep" args.

(** * Properties *)

(** ** The scan *)

Lemma or_oserror_unfold (pofile : string -> option (list polib.POEntry))
    (filename : string) :
  polib.or_oserror pofile filename =
    match pofile filename with
    | Some entries => polib.Parsed entries
    | None => polib.OSError
    end.
Proof. reflexivity. Qed.

Section ScanFacts.
Context {L : regex.Lib}.
Variable pofile : string -> option (list polib.POEntry).

Lemma truthy_nonempty (s : string) : truthy s = true <-> s <> "".
Proof. destruct s; simpl; split; congruence. Qed.

Lemma search_compiled (pattern text : string) (p : regex.compiled) :
  regex.compile pattern = Some p ->
  regex.search pattern text = Ret (regex.search_c p text).
Proof. intros Hp. unfold regex.search. now rewrite Hp. Qed.

Lemma search_malformed (pattern text : string) :
  regex.compile pattern = None -> regex.search pattern text = Raise RegexError.
Proof. intros Hp. unfold regex.search. now rewrite Hp. Qed.

Lemma entry_selected_compiled pattern p ns tr entry :
  regex.compile pattern = Some p ->
  entry_selected pattern ns tr entry = Ret (selects p ns tr entry).
Proof.
  intros Hp. unfold entry_selected, selects.
  rewrite !(search_compiled _ _ _ Hp).
  destruct (truthy (polib.msgstr entry)), ns, tr; simpl;
    try reflexivity;
    destruct (regex.search_c p (polib.msgid entry)); reflexivity.
Qed.

Lemma entry_selected_malformed pattern ns tr entry :
  regex.compile pattern = None ->
  entry_selected pattern ns tr entry =
    if applies ns tr entry then Raise RegexError else Ret false.
Proof.
  intros Hp. unfold entry_selected, applies.
  rewrite !(search_malformed _ _ Hp).
  destruct (truthy (polib.msgstr entry)), ns, tr; reflexivity.
Qed.

Lemma scan_entries_compiled pattern p ns tr filename entries results :
  regex.compile pattern = Some p ->
  scan_entries pattern ns tr filename entries results =
    Ret (results ++ map (to_match filename) (List.filter (selects p ns tr) entries)).
Proof.
  intros Hp. revert results.
  induction entries as [|entry rest IH]; intros results; simpl.
  - now rewrite app_nil_r.
  - rewrite (entry_selected_compiled _ _ _ _ _ Hp). simpl. rewrite IH.
    destruct (selects p ns tr entry); simpl; [|reflexivity].
    now rewrite <- app_assoc.
Qed.

Lemma scan_entries_malformed pattern ns tr filename entries results :
  regex.compile pattern = None ->
  scan_entries pattern ns tr filename entries results =
    if existsb (applies ns tr) entries then Raise RegexError else Ret results.
Proof.
  intros Hp. revert results.
  induction entries as [|entry rest IH]; intros results; simpl; [reflexivity|].
  rewrite (entry_selected_malformed _ _ _ _ Hp).
  destruct (applies ns tr entry); simpl; [reflexivity|apply IH].
Qed.

(** With a pattern that compiles the scan goes through every file. *)
Lemma scan_files_compiled pattern p ns tr path errors results :
  regex.compile pattern = Some p ->
  scan_files (polib.or_oserror pofile) pattern ns tr path errors results =
    (map Parse path,
     Ret (errors ++ warnings pofile path,
          results ++ matches_of pofile p ns tr path)).
Proof.
  intros Hp. revert errors results.
  induction path as [|filename rest IH]; intros errors results; simpl.
  - now rewrite !app_nil_r.
  - unfold matches_of_file.
    rewrite ?or_oserror_unfold; destruct (pofile filename) as [entries|]; simpl.
    + rewrite (scan_entries_compiled _ _ _ _ _ _ _ Hp). simpl.
      rewrite IH. simpl. now rewrite <- app_assoc.
    + rewrite IH. simpl. now rewrite <- app_assoc.
Qed.

Lemma find_in_po_compiled pattern p path ns tr :
  regex.compile pattern = Some p ->
  find_in_po (polib.or_oserror pofile) pattern path ns tr =
    (map Parse path, Ret (warnings pofile path, matches_of pofile p ns tr path)).
Proof. intros Hp. unfold find_in_po. now rewrite (scan_files_compiled _ _ _ _ _ _ _ Hp). Qed.

(** With a malformed pattern the scan stops where the pattern is first
    applied, and goes through when it never is; it prints nothing. *)
Lemma scan_files_malformed pattern ns tr path errors results :
  regex.compile pattern = None ->
  outcome (scan_files (polib.or_oserror pofile) pattern ns tr path errors results) =
    (if pattern_applied pofile ns tr path then Raise RegexError
     else Ret (errors ++ warnings pofile path, results)) /\
  stdout_of (trace (scan_files (polib.or_oserror pofile) pattern ns tr path errors results)) = [] /\
  stderr_of (trace (scan_files (polib.or_oserror pofile) pattern ns tr path errors results)) = [].
Proof.
  intros Hp. revert errors results.
  induction path as [|filename rest IH]; intros errors results; simpl.
  - now rewrite app_nil_r.
  - rewrite ?or_oserror_unfold; destruct (pofile filename) as [entries|]; simpl.
    + rewrite (scan_entries_malformed _ _ _ _ _ _ Hp).
      destruct (existsb (applies ns tr) entries); simpl; [easy|].
      specialize (IH errors results).
      destruct (scan_files (polib.or_oserror pofile) pattern ns tr rest errors results) as [t r].
      exact IH.
    + specialize (IH (errors ++ [not_a_po_file filename]) results).
      destruct (scan_files (polib.or_oserror pofile) pattern ns tr rest
                  (errors ++ [not_a_po_file filename]) results) as [t r].
      simpl in *. now rewrite <- app_assoc in IH.
Qed.

Lemma in_matches_of p ns tr path (m : Match) :
  In m (matches_of pofile p ns tr path) <->
  exists filename entries entry,
    In filename path /\ pofile filename = Some entries /\ In entry entries /\
    selects p ns tr entry = true /\ m = to_match filename entry.
Proof.
  unfold matches_of. rewrite in_flat_map. split.
  - intros (filename & Hf & Hm). unfold matches_of_file in Hm.
    rewrite ?or_oserror_unfold; destruct (pofile filename) as [entries|] eqn:Hpo; [|contradiction].
    apply in_map_iff in Hm as (entry & <- & He).
    apply filter_In in He as [He Hs].
    exists filename, entries, entry. auto.
  - intros (filename & entries & entry & Hf & Hpo & He & Hs & ->).
    exists filename. split; [assumption|].
    unfold matches_of_file. rewrite Hpo.
    apply in_map. apply filter_In. auto.
Qed.

Lemma selects_spec p ns tr entry :
  selects p ns tr entry = true <->
  polib.msgstr entry <> "" /\
  ((ns = false /\ regex.search_c p (polib.msgid entry) = true) \/
   (tr = true /\ regex.search_c p (polib.msgstr entry) = true)).
Proof.
  unfold selects.
  rewrite andb_true_iff, orb_true_iff, !andb_true_iff, negb_true_iff.
  now rewrite truthy_nonempty.
Qed.

End ScanFacts.


(** With both sides off no record is selected and the pattern is never
    applied. *)
Lemma matches_of_sides_off {L : regex.Lib}
    (pofile : string -> option (list polib.POEntry)) p (path : list string) :
  matches_of pofile p true false path = [].
Proof.
  unfold matches_of. induction path as [|f rest IH]; simpl; [reflexivity|].
  rewrite IH, app_nil_r. unfold matches_of_file.
  destruct (pofile f) as [es|]; [|reflexivity].
  induction es as [|e es IHes]; simpl; [reflexivity|].
  unfold selects at 1. simpl. rewrite andb_false_r. exact IHes.
Qed.

Lemma pattern_applied_sides_off
    (pofile : string -> option (list polib.POEntry)) (path : list string) :
  pattern_applied pofile true false path = false.
Proof.
  unfold pattern_applied, applies. simpl.
  induction path as [|f rest IH]; simpl; [reflexivity|].
  rewrite IH, orb_false_r.
  destruct (pofile f) as [es|]; [|reflexivity].
  induction es as [|e es IHes]; simpl; [reflexivity|].
  now rewrite andb_false_r.
Qed.

(** ** The match predicate *)

(** C1: with a pattern that compiles, the matches that [find_in_po] returns
    are exactly the records of the catalogs read whose translation is not
    empty and whose original text matches (unless the source side is off) or
    whose translation matches (when the translation side is on); no match
    has an empty translation; with both sides off the list of matches is
    empty, whatever the pattern. *)
Theorem find_in_po_match_predicate {L : regex.Lib}
    (pofile : string -> option (list polib.POEntry))
    (pattern : string) (path : list string) (not_in_source in_translation : bool) :
  (forall p, regex.compile pattern = Some p ->
     exists errors results,
       outcome (find_in_po (polib.or_oserror pofile) pattern path not_in_source in_translation)
         = Ret (errors, results) /\
       forall m, In m results <->
         exists filename entries entry,
           In filename path /\ pofile filename = Some entries /\ In entry entries /\
           m = to_match filename entry /\
           polib.msgstr entry <> "" /\
           ((not_in_source = false /\ regex.search_c p (polib.msgid entry) = true) \/
            (in_translation = true /\ regex.search_c p (polib.msgstr entry) = true))) /\
  (forall errors results,
     outcome (find_in_po (polib.or_oserror pofile) pattern path not_in_source in_translation)
       = Ret (errors, results) ->
     forall m, In m results -> msgstr m <> "") /\
  (not_in_source = true -> in_translation = false ->
     exists errors,
       outcome (find_in_po (polib.or_oserror pofile) pattern path not_in_source in_translation)
         = Ret (errors, [])).
Proof.
  split; [|split].
  - intros p Hp. exists (warnings pofile path), (matches_of pofile p not_in_source in_translation path).
    rewrite (find_in_po_compiled _ _ _ _ _ _ Hp). split; [reflexivity|].
    intros m. rewrite in_matches_of. split.
    + intros (f & es & e & Hf & Hpo & He & Hs & ->).
      apply selects_spec in Hs as [Hne Hside]. exists f, es, e. auto 10.
    + intros (f & es & e & Hf & Hpo & He & -> & Hne & Hside).
      exists f, es, e. repeat split; try assumption.
      apply selects_spec. auto.
  - intros errors results Hout m Hm.
    destruct (regex.compile pattern) as [p|] eqn:Hp.
    + rewrite (find_in_po_compiled _ _ _ _ _ _ Hp) in Hout. simpl in Hout.
      injection Hout as _ <-.
      apply in_matches_of in Hm as (f & es & e & _ & _ & _ & Hs & ->).
      apply selects_spec in Hs as [Hne _]. exact Hne.
    + destruct (scan_files_malformed pofile pattern not_in_source in_translation
                  path [] [] Hp) as [Ho _].
      unfold find_in_po in Hout. rewrite Hout in Ho.
      destruct (pattern_applied pofile not_in_source in_translation path);
        [discriminate|].
      injection Ho as _ ->. contradiction.
  - intros -> ->. destruct (regex.compile pattern) as [p|] eqn:Hp.
    + exists (warnings pofile path).
      rewrite (find_in_po_compiled _ _ _ _ _ _ Hp). simpl.
      now rewrite matches_of_sides_off.
    + destruct (scan_files_malformed pofile pattern true false path [] [] Hp)
        as [Ho _].
      exists (warnings pofile path). unfold find_in_po. rewrite Ho.
      now rewrite pattern_applied_sides_off.
Qed.

(** On [a.po], pattern [hello] with the default sides: the entry of line 3
    is the one match; with both sides off there is none. *)
Lemma find_in_po_match_predicate_witness :
  regex.compile (Lib := MiniRegex.lib) "hello" = Some re_hello /\
  (exists errors results,
     outcome (find_in_po (L := MiniRegex.lib) (polib.or_oserror sample_pofile) "hello" ["a.po"] false false)
       = Ret (errors, results) /\
     forall m, In m results <->
       exists filename entries entry,
         In filename ["a.po"] /\ sample_pofile filename = Some entries /\
         In entry entries /\ m = to_match filename entry /\
         polib.msgstr entry <> "" /\
         ((false = false /\
           regex.search_c (Lib := MiniRegex.lib) re_hello (polib.msgid entry) = true) \/
          (false = true /\
           regex.search_c (Lib := MiniRegex.lib) re_hello (polib.msgstr entry) = true))) /\
  (exists errors,
     outcome (find_in_po (L := MiniRegex.lib) (polib.or_oserror sample_pofile) "hello" ["a.po"] true false)
       = Ret (errors, [])).
Proof.
  split; [reflexivity|split].
  - apply (proj1 (find_in_po_match_predicate (L := MiniRegex.lib)
                    sample_pofile "hello" ["a.po"] false false) re_hello).
    reflexivity.
  - apply (proj2 (proj2 (find_in_po_match_predicate (L := MiniRegex.lib)
                           sample_pofile "hello" ["a.po"] true false)));
      reflexivity.
Defined.

Example find_in_po_scenario :
  find_in_po (L := MiniRegex.lib) (polib.or_oserror sample_pofile) "hello" ["a.po"] false false =
    ([Parse "a.po"],
     Ret ([], [ {| file := "a.po"; line := 3; msgid := "hello"; msgstr := "bonjour" |} ])).
Proof. vm_compute. reflexivity. Qed.

Example find_in_po_scenario_translation :
  find_in_po (L := MiniRegex.lib) (polib.or_oserror sample_pofile) "bonjour" ["a.po"] true true =
    ([Parse "a.po"],
     Ret ([], [ {| file := "a.po"; line := 3; msgid := "hello"; msgstr := "bonjour" |} ])).
Proof. vm_compute. reflexivity. Qed.

(** ** Order of the matches *)

Lemma filter_is_sublist {A} (f : A -> bool) (l : list A) : sublist (List.filter f l) l.
Proof.
  induction l as [|x l IH]; simpl; [constructor|].
  destruct (f x); now constructor.
Qed.

(** C5: with a pattern that compiles, [find_in_po] reads the files in the
    order of the list and returns, file after file in that order, the selected
    records of each file in the order of its entries: a sub-sequence of the
    entries, nothing sorted, nothing merged (a file listed twice gives its
    matches twice). *)
Theorem find_in_po_preserves_order {L : regex.Lib}
    (pofile : string -> option (list polib.POEntry))
    (pattern : string) (p : regex.compiled) (path : list string)
    (not_in_source in_translation : bool) :
  regex.compile pattern = Some p ->
  find_in_po (polib.or_oserror pofile) pattern path not_in_source in_translation =
    (map Parse path,
     Ret (warnings pofile path,
          flat_map (matches_of_file pofile p not_in_source in_translation) path)) /\
  forall filename entries,
    pofile filename = Some entries ->
    matches_of_file pofile p not_in_source in_translation filename =
      map (to_match filename)
          (List.filter (selects p not_in_source in_translation) entries) /\
    sublist (List.filter (selects p not_in_source in_translation) entries) entries.
Proof.
  intros Hp. split.
  - exact (find_in_po_compiled pofile pattern p path not_in_source in_translation Hp).
  - intros filename entries Hpo. unfold matches_of_file. rewrite Hpo.
    split; [reflexivity|apply filter_is_sublist].
Qed.

Lemma find_in_po_preserves_order_witness :
  regex.compile (Lib := MiniRegex.lib) "hello" = Some re_hello /\
  find_in_po (L := MiniRegex.lib) (polib.or_oserror sample_pofile) "hello" ["b.po"; "a.po"; "b.po"]
             false false =
    (map Parse ["b.po"; "a.po"; "b.po"],
     Ret (warnings sample_pofile ["b.po"; "a.po"; "b.po"],
          flat_map (matches_of_file (L := MiniRegex.lib) sample_pofile re_hello
                      false false)
                   ["b.po"; "a.po"; "b.po"])).
Proof.
  split; [reflexivity|].
  apply (find_in_po_preserves_order (L := MiniRegex.lib) sample_pofile "hello"
           re_hello ["b.po"; "a.po"; "b.po"] false false).
  reflexivity.
Defined.

Example find_in_po_keeps_duplicates :
  outcome (find_in_po (L := MiniRegex.lib) (polib.or_oserror sample_pofile) "hello"
             ["b.po"; "a.po"; "b.po"] false false) =
    Ret ([],
         [ {| file := "b.po"; line := 9; msgid := "hello again"; msgstr := "rebonjour" |};
           {| file := "a.po"; line := 3; msgid := "hello"; msgstr := "bonjour" |};
           {| file := "b.po"; line := 9; msgid := "hello again"; msgstr := "rebonjour" |} ]).
Proof. vm_compute. reflexivity. Qed.

(** ** Printing and paths *)

Lemma io_bind_ret {A B} (tr : list event) (a : A) (k : A -> io B) :
  io_bind (tr, Ret a) k = (tr ++ trace (k a), outcome (k a)).
Proof. unfold io_bind, trace, outcome. now destruct (k a). Qed.

Lemma io_bind_raise {A B} (tr : list event) (e : exn) (k : A -> io B) :
  io_bind (tr, Raise e) k = (tr, Raise e).
Proof. reflexivity. Qed.

Lemma io_surjective {A} (m : io A) : m = (trace m, outcome m).
Proof. now destruct m. Qed.

Lemma print_each_emit (mk : string -> event) (lines : list string) :
  print_each (fun l => io_emit (mk l)) lines = (map mk lines, Ret tt).
Proof.
  induction lines as [|l rest IH]; simpl; [reflexivity|].
  rewrite IH. reflexivity.
Qed.

Lemma stdout_of_app (t1 t2 : list event) :
  stdout_of (t1 ++ t2) = stdout_of t1 ++ stdout_of t2.
Proof. unfold stdout_of. now rewrite flat_map_app. Qed.

Lemma stderr_of_app (t1 t2 : list event) :
  stderr_of (t1 ++ t2) = stderr_of t1 ++ stderr_of t2.
Proof. unfold stderr_of. now rewrite flat_map_app. Qed.

Lemma stdout_of_parse (files : list string) : stdout_of (map Parse files) = [].
Proof. induction files; simpl; auto. Qed.

Lemma stderr_of_parse (files : list string) : stderr_of (map Parse files) = [].
Proof. induction files; simpl; auto. Qed.

Lemma stdout_of_err (lines : list string) : stdout_of (map Err lines) = [].
Proof. induction lines; simpl; auto. Qed.

Lemma stderr_of_err (lines : list string) : stderr_of (map Err lines) = lines.
Proof. induction lines; simpl; congruence. Qed.

Lemma stdout_of_out {A} (f : A -> string) (l : list A) :
  stdout_of (map (fun x => Out (f x)) l) = map f l.
Proof. induction l; simpl; congruence. Qed.

Section PathFacts.
Variable isfile : string -> bool.
Variable isdir : string -> bool.
Variable glob : string -> list string.
Variable os_sep : ascii.
Variable argv0 : string.

Lemma process_elts_first_offending path recursive files :
  process_elts isfile isdir glob os_sep argv0 path recursive files =
    match List.find (offending isfile isdir recursive) path with
    | Some bad => ([Err (path_error isdir argv0 bad)], Raise (SystemExit 1))
    | None => ([], Ret (files ++ resolved isfile glob os_sep path))
    end.
Proof.
  revert files. induction path as [|elt rest IH]; intros files; simpl.
  - now rewrite app_nil_r.
  - unfold offending at 1, path_error.
    destruct (isfile elt); simpl.
    + rewrite IH. destruct (List.find _ rest); [reflexivity|].
      now rewrite <- app_assoc.
    + destruct (isdir elt) eqn:Hdir, recursive; simpl; rewrite ?Hdir;
        try reflexivity.
      rewrite IH. destruct (List.find _ rest); [reflexivity|].
      now rewrite <- app_assoc.
Qed.

Lemma find_first {A} (f : A -> bool) (ok : list A) (bad : A) (rest : list A) :
  Forall (fun x => f x = false) ok -> f bad = true ->
  List.find f (ok ++ bad :: rest) = Some bad.
Proof.
  intros Hok Hbad. induction Hok as [|x ok Hx _ IH]; simpl.
  - now rewrite Hbad.
  - now rewrite Hx.
Qed.

(** [process_path] prints nothing when it returns. *)
Lemma process_path_returns path recursive files :
  outcome (process_path isfile isdir glob os_sep argv0 path recursive) = Ret files ->
  process_path isfile isdir glob os_sep argv0 path recursive = ([], Ret files).
Proof.
  unfold process_path, outcome, io_ret, io_raise.
  destruct (length path =? 0)%nat.
  - destruct recursive; simpl; intros H; [congruence|discriminate].
  - rewrite process_elts_first_offending.
    destruct (List.find _ path); simpl; intros H; [discriminate|congruence].
Qed.

End PathFacts.

Lemma offending_cases (isfile isdir : string -> bool) (recursive : bool) (elt : string) :
  offending isfile isdir recursive elt = true <->
  isfile elt = false /\
  ((isdir elt = true /\ recursive = false) \/ isdir elt = false).
Proof.
  unfold offending.
  destruct (isfile elt), (isdir elt), recursive; simpl; intuition congruence.
Qed.

(** ** The whole run *)

Section MainFacts.
Context {L : regex.Lib}.
Variable colors : Colors.
Variable pofile : string -> option (list polib.POEntry).
Variable term_width : Z.
Variable fill : string -> Z -> result string.
Variable tabulate : list (string * string) -> string.
Variable isfile : string -> bool.
Variable isdir : string -> bool.
Variable glob : string -> list string.
Variable os_sep : ascii.
Variable argv0 : string.

Local Abbreviation run := (main colors (polib.or_oserror pofile) term_width fill tabulate
                            isfile isdir glob os_sep argv0).
Local Abbreviation paths args :=
  (process_path isfile isdir glob os_sep argv0
                (argparse.path args) (argparse.recursive args)).
Local Abbreviation pattern_of args :=
  (build_pattern (argparse.pattern args) (argparse.fixed_strings args)
                 (argparse.word_regexp args) (argparse.ignore_case args)).
Local Abbreviation scanned args files := (exclude os_sep (argparse.exclude_dir args) files).
Local Abbreviation show := (display_results colors term_width fill tabulate).

(** A run whose paths resolve and whose pattern compiles: the files are
    read, then the warnings are printed, then the results are shown. *)
Lemma main_compiled args p files :
  outcome (paths args) = Ret files ->
  regex.compile (pattern_of args) = Some p ->
  run args =
    (map Parse (scanned args files)
       ++ (if argparse.no_messages args then []
           else map Err (warnings pofile (scanned args files)))
       ++ trace (show (matches_of pofile p (argparse.no_source args)
                         (argparse.translation args) (scanned args files))
                      (pattern_of args) (argparse.line_number args)
                      (argparse.files_with_matches args)),
     outcome (show (matches_of pofile p (argparse.no_source args)
                      (argparse.translation args) (scanned args files))
                   (pattern_of args) (argparse.line_number args)
                   (argparse.files_with_matches args))).
Proof.
  intros Hpath Hp. unfold main.
  rewrite (process_path_returns _ _ _ _ _ _ _ _ Hpath).
  rewrite io_bind_ret. simpl.
  rewrite (find_in_po_compiled pofile _ p _ _ _ Hp).
  rewrite io_bind_ret. simpl.
  destruct (argparse.no_messages args).
  - unfold io_ret. rewrite io_bind_ret. reflexivity.
  - unfold print_stderr. rewrite (print_each_emit Err), io_bind_ret. reflexivity.
Qed.

(** [display_results] on no match at all. *)
Lemma display_nothing pattern line_number files_with_matches :
  regex.compile pattern = None ->
  show [] pattern line_number files_with_matches =
    ([], if files_with_matches then Ret tt else Raise RegexError).
Proof.
  intros Hp. unfold display_results. simpl.
  destruct files_with_matches.
  - now rewrite elements_empty.
  - unfold colorize, regex.sub. now rewrite Hp.
Qed.


(** X15: in a directory where [polib.pofile] fails with [OSError] only, when
    the paths resolve and the pattern compiles, a file of the list on which
    it raises [OSError] stops nothing: the files after it are still read, it
    adds exactly one warning and no match, and the run prints the warnings on
    standard error after the last file was read and before the results are
    shown -- or not at all under [--no-messages]. *)
Theorem unreadable_catalog_is_a_warning args p files before bad after :
  outcome (paths args) = Ret files ->
  scanned args files = before ++ bad :: after ->
  pofile bad = None ->
  regex.compile (pattern_of args) = Some p ->
  let found :=
    matches_of pofile p (argparse.no_source args) (argparse.translation args) before
    ++ matches_of pofile p (argparse.no_source args) (argparse.translation args) after in
  let warned := warnings pofile before ++ not_a_po_file bad :: warnings pofile after in
  find_in_po (polib.or_oserror pofile) (pattern_of args) (before ++ bad :: after)
             (argparse.no_source args) (argparse.translation args) =
    (map Parse before ++ Parse bad :: map Parse after, Ret (warned, found)) /\
  run args =
    ((map Parse before ++ Parse bad :: map Parse after)
       ++ (if argparse.no_messages args then [] else map Err warned)
       ++ trace (show found (pattern_of args) (argparse.line_number args)
                      (argparse.files_with_matches args)),
     outcome (show found (pattern_of args) (argparse.line_number args)
                   (argparse.files_with_matches args))).
Proof.
  intros Hpath Hfiles Hbad Hp found warned.
  assert (Hw : warnings pofile (before ++ bad :: after) = warned).
  { unfold warnings, warned. rewrite flat_map_app. simpl. now rewrite Hbad. }
  assert (Hm : matches_of pofile p (argparse.no_source args)
                 (argparse.translation args) (before ++ bad :: after) = found).
  { unfold matches_of, found. rewrite flat_map_app. simpl.
    unfold matches_of_file at 2. now rewrite Hbad. }
  assert (Ht : map Parse (before ++ bad :: after)
               = map Parse before ++ Parse bad :: map Parse after).
  { now rewrite map_app. }
  split.
  - now rewrite (find_in_po_compiled pofile _ p _ _ _ Hp), Hw, Hm, Ht.
  - now rewrite (main_compiled args p files Hpath Hp), Hfiles, Hw, Hm, Ht.
Qed.

(** C7, amended: with no path and without [-r] the run exits at once with
    status 0, reading and printing nothing; otherwise the first path of the
    list that is neither a file nor, under [-r], a directory stops the run:
    one error naming that path goes to standard error and the run exits with
    status 1 without reading any catalog. *)
Theorem path_resolution_stops_at_first_offending args :
  (argparse.path args = [] -> argparse.recursive args = false ->
   run args = ([], Raise (SystemExit 0))) /\
  (forall ok bad rest,
     argparse.path args = ok ++ bad :: rest ->
     Forall (fun elt => offending isfile isdir (argparse.recursive args) elt = false) ok ->
     offending isfile isdir (argparse.recursive args) bad = true ->
     run args = ([Err (path_error isdir argv0 bad)], Raise (SystemExit 1))).
Proof.
  split.
  - intros Hpath Hrec. unfold main, process_path. now rewrite Hpath, Hrec.
  - intros ok bad rest Hpath Hok Hbad. unfold main, process_path.
    rewrite Hpath.
    replace (length (ok ++ bad :: rest) =? 0)%nat with false
      by (symmetry; apply Nat.eqb_neq; rewrite length_app; simpl; lia).
    rewrite process_elts_first_offending, (find_first _ _ _ _ Hok Hbad).
    reflexivity.
Qed.

(** C6: under [--files-with-matches], [display_results] prints one line for
    each distinct file of the matches, the name between the color of file
    names and the reset, and nothing more, whatever the pattern, the
    line-number flag and the layout functions; and so does a run whose paths
    resolve and whose pattern compiles. *)
Theorem files_with_matches_lists_files :
  (forall matches pattern line_number,
     exists names,
       show matches pattern line_number true =
         (map (fun f => Out (MAGENTA colors +:+ f +:+ NO_COLOR colors)) names, Ret tt) /\
       NoDup names /\
       forall f, In f names <-> exists m, In m matches /\ file m = f) /\
  (forall args p files,
     outcome (paths args) = Ret files ->
     regex.compile (pattern_of args) = Some p ->
     argparse.files_with_matches args = true ->
     exists names,
       stdout_of (trace (run args)) =
         map (fun f => MAGENTA colors +:+ f +:+ NO_COLOR colors) names /\
       outcome (run args) = Ret tt /\
       NoDup names /\
       forall f, In f names <->
         exists m, In m (matches_of pofile p (argparse.no_source args)
                           (argparse.translation args) (scanned args files))
                   /\ file m = f).
Proof.
  assert (Hshow : forall matches pattern line_number,
     exists names,
       show matches pattern line_number true =
         (map (fun f => Out (MAGENTA colors +:+ f +:+ NO_COLOR colors)) names, Ret tt) /\
       NoDup names /\
       forall f, In f names <-> exists m, In m matches /\ file m = f).
  { intros matches pattern line_number.
    exists (elements (list_to_set (map file matches) : gset string)).
    split; [|split].
    - unfold display_results.
      exact (print_each_emit
               (fun f => Out (MAGENTA colors +:+ f +:+ NO_COLOR colors)) _).
    - apply NoDup_elements.
    - intros f. rewrite <- list_elem_of_In, elem_of_elements, elem_of_list_to_set,
        list_elem_of_In, in_map_iff.
      split; intros (m & H1 & H2); exists m; auto. }
  split; [exact Hshow|].
  intros args p files Hpath Hp Hflag.
  rewrite (main_compiled args p files Hpath Hp), Hflag.
  destruct (Hshow (matches_of pofile p (argparse.no_source args)
                     (argparse.translation args) (scanned args files))
                  (pattern_of args) (argparse.line_number args))
    as (names & Heq & Hnd & Hin).
  exists names. rewrite Heq. simpl.
  rewrite !stdout_of_app, stdout_of_parse.
  rewrite (stdout_of_out (fun f => MAGENTA colors +:+ f +:+ NO_COLOR colors)).
  destruct (argparse.no_messages args); simpl; rewrite ?stdout_of_err; auto.
Qed.

End MainFacts.

(** ** Runs in the sample directory *)

Lemma unreadable_catalog_is_a_warning_witness :
  sample_pofile "README" = None /\
  regex.compile (Lib := MiniRegex.lib) "hello" = Some re_hello /\
  parsed_of (trace (sample_main (default_args "hello" ["a.po"; "README"; "b.po"])))
    = ["a.po"; "README"; "b.po"] /\
  stderr_of (trace (sample_main (default_args "hello" ["a.po"; "README"; "b.po"])))
    = ["README doesn't seem to be a .po file"].
Proof.
  split; [reflexivity|split; [reflexivity|]].
  pose proof (unreadable_catalog_is_a_warning (L := MiniRegex.lib)
                xterm sample_pofile 80 simple_fill simple_tabulate
                sample_isfile sample_isdir sample_glob "/"%char "pogrep"
                (default_args "hello" ["a.po"; "README"; "b.po"]) re_hello
                ["a.po"; "README"; "b.po"] ["a.po"] "README" ["b.po"]
                eq_refl eq_refl eq_refl eq_refl) as H.
  cbv zeta in H. destruct H as [_ H].
  unfold sample_main. rewrite H. split; vm_compute; reflexivity.
Defined.

Lemma path_resolution_stops_at_first_offending_witness :
  sample_main (default_args "hello" []) = ([], Raise (SystemExit 0)) /\
  sample_main (default_args "hello" ["a.po"; "locale"; "nope"]) =
    ([Err "pogrep: locale: Is a directory"], Raise (SystemExit 1)).
Proof.
  split.
  - apply (proj1 (path_resolution_stops_at_first_offending (L := MiniRegex.lib)
                    xterm sample_pofile 80 simple_fill simple_tabulate
                    sample_isfile sample_isdir sample_glob "/"%char "pogrep"
                    (default_args "hello" []))); reflexivity.
  - apply (proj2 (path_resolution_stops_at_first_offending (L := MiniRegex.lib)
                    xterm sample_pofile 80 simple_fill simple_tabulate
                    sample_isfile sample_isdir sample_glob "/"%char "pogrep"
                    (default_args "hello" ["a.po"; "locale"; "nope"]))
                 ["a.po"] "locale" ["nope"]).
    + reflexivity.
    + repeat constructor.
    + reflexivity.
Defined.

(** C7 as stated fails: of two paths that do not exist, the second one is
    named by no error. *)
Lemma second_missing_path_is_not_named :
  In "nope2" (argparse.path (default_args "hello" ["nope1"; "nope2"])) /\
  sample_isfile "nope2" = false /\ sample_isdir "nope2" = false /\
  sample_main (default_args "hello" ["nope1"; "nope2"]) =
    ([Err "pogrep: nope1: No such file or directory"], Raise (SystemExit 1)) /\
  forall text,
    In text (stderr_of (trace (sample_main (default_args "hello" ["nope1"; "nope2"])))) ->
    contains "nope2" text = false.
Proof.
  split; [simpl; auto|].
  split; [reflexivity|]. split; [reflexivity|]. split; [reflexivity|].
  intros text [<-|[]]. reflexivity.
Qed.

Lemma files_with_matches_lists_files_witness :
  regex.compile (Lib := MiniRegex.lib) "hello" = Some re_hello /\
  exists names,
    stdout_of (trace (sample_main
                        (with_files_with_matches (default_args "hello" ["a.po"; "b.po"]))))
      = map (fun f => MAGENTA xterm +:+ f +:+ NO_COLOR xterm) names /\
    outcome (sample_main
               (with_files_with_matches (default_args "hello" ["a.po"; "b.po"])))
      = Ret tt /\
    NoDup names /\
    forall f, In f names <->
      exists m, In m (matches_of (L := MiniRegex.lib) sample_pofile re_hello false false
                        ["a.po"; "b.po"])
                /\ file m = f.
Proof.
  split; [reflexivity|].
  apply (proj2 (files_with_matches_lists_files (L := MiniRegex.lib)
                  xterm sample_pofile 80 simple_fill simple_tabulate
                  sample_isfile sample_isdir sample_glob "/"%char "pogrep")
               (with_files_with_matches (default_args "hello" ["a.po"; "b.po"]))
               re_hello ["a.po"; "b.po"]);
    reflexivity.
Defined.


(** ** The pattern *)

(** C2: the pattern handed to the search is the raw pattern, escaped first
    when [--fixed-strings] is given, then put between two [\b] when
    [--word-regexp] is given, then preceded by [(?i)] when [--ignore-case] is
    given: the anchors and the modifier are added after the escaping and are
    never escaped themselves. *)
Theorem build_pattern_order {L : regex.Lib}
    (raw : string) (fixed_strings word_regexp ignore_case : bool) :
  build_pattern raw fixed_strings word_regexp ignore_case =
    (if ignore_case then "(?i)" else "") +:+
    (if word_regexp
     then "\b" +:+ (if fixed_strings then regex.escape raw else raw) +:+ "\b"
     else (if fixed_strings then regex.escape raw else raw)).
Proof. destruct fixed_strings, word_regexp, ignore_case; reflexivity. Qed.

Example build_pattern_all_flags :
  build_pattern (L := MiniRegex.lib) "a.b (c)" true true true = "(?i)\ba\.b\ \(c\)\b".
Proof. reflexivity. Qed.

Example build_pattern_no_flag :
  build_pattern (L := MiniRegex.lib) "a.b (c)" false false false = "a.b (c)".
Proof. reflexivity. Qed.

(** C10: under [--word-regexp] the pattern [cat|dog] becomes [\bcat|dog\b],
    where each anchor belongs to one alternative only; it matches the three
    letters [cat] at the head of [category], which the letter [e] follows,
    and the record is reported. *)
Theorem word_regexp_alternation_matches_inside_word :
  build_pattern (L := MiniRegex.lib) "cat|dog" false true false = "\bcat|dog\b" /\
  MiniRegex.parse "\bcat|dog\b" =
    MiniRegex.Parsed (compiled_or_eps "\bcat|dog\b") /\
  MiniRegex.first_match (compiled_or_eps "\bcat|dog\b") "category" = Some (0, 3)%nat /\
  String.substring 0 3 "category" = "cat" /\
  option_map MiniRegex.is_alnum (String.get 3 "category") = Some true /\
  outcome (find_in_po (L := MiniRegex.lib) (polib.or_oserror sample_pofile) "\bcat|dog\b" ["b.po"]
                      false false) =
    Ret ([], [ {| file := "b.po"; line := 5;
                  msgid := "category"; msgstr := "categorie" |} ]).
Proof. repeat split. Qed.

Example word_regexp_single_word :
  MiniRegex.first_match (compiled_or_eps "\bcat\b") "category" = None /\
  MiniRegex.first_match (compiled_or_eps "\bcat\b") "a cat." = Some (2, 3)%nat.
Proof. split; reflexivity. Qed.

(** ** Highlighting *)

(** C3: the prefix of a row is searched as a regular expression when the
    pattern does not match inside it; the dot of [a.po] then stands for any
    character, and the text [" aXpo:30:"] of an earlier row is replaced by
    the colored prefix of the row of [a.po].  Without the colors the output
    reads [a.po] where the input had [aXpo]. *)
Theorem colorize_alters_text :
  colorize (L := MiniRegex.lib) xterm
           " b.po:1:see aXpo:30: a.po:30:x" "zzz" [("1:", "b.po:"); ("30:", "a.po:")] =
    Ret (" " +:+ MAGENTA xterm +:+ "b.po:" +:+ GREEN xterm +:+ "1:" +:+ NO_COLOR xterm
         +:+ "see " +:+ MAGENTA xterm +:+ "a.po:" +:+ GREEN xterm +:+ "30:"
         +:+ NO_COLOR xterm +:+ " a.po:30:x") /\
  strip_colors xterm
    (" " +:+ MAGENTA xterm +:+ "b.po:" +:+ GREEN xterm +:+ "1:" +:+ NO_COLOR xterm
     +:+ "see " +:+ MAGENTA xterm +:+ "a.po:" +:+ GREEN xterm +:+ "30:"
     +:+ NO_COLOR xterm +:+ " a.po:30:x") =
    " b.po:1:see a.po:30: a.po:30:x" /\
  " b.po:1:see a.po:30: a.po:30:x" <> " b.po:1:see aXpo:30: a.po:30:x".
Proof. split; [|split]; [reflexivity|reflexivity|discriminate]. Qed.

(** C4: the first occurrence of the literal prefix [" a.po:30:"] stays as it
    is, and the span that gets the two colors is [" aXpo:30:"], the first
    match of the prefix read as a regular expression. *)
Theorem colorize_misses_literal_prefix :
  regex.sub (L := MiniRegex.lib) "zzz" (RED xterm +:+ "\g<0>" +:+ NO_COLOR xterm)
            " aXpo:30: a.po:30:x" 0 = Ret " aXpo:30: a.po:30:x" /\
  colorize (L := MiniRegex.lib) xterm " aXpo:30: a.po:30:x" "zzz" [("30:", "a.po:")] =
    Ret (" " +:+ MAGENTA xterm +:+ "a.po:" +:+ GREEN xterm +:+ "30:" +:+ NO_COLOR xterm
         +:+ " a.po:30:x") /\
  color_prefixes_literally xterm [("30:", "a.po:")] " aXpo:30: a.po:30:x" =
    " aXpo:30: " +:+ MAGENTA xterm +:+ "a.po:" +:+ GREEN xterm +:+ "30:"
    +:+ NO_COLOR xterm +:+ "x" /\
  colorize (L := MiniRegex.lib) xterm " aXpo:30: a.po:30:x" "zzz" [("30:", "a.po:")] <>
    Ret (color_prefixes_literally xterm [("30:", "a.po:")] " aXpo:30: a.po:30:x").
Proof.
  split; [|split; [|split]]; [reflexivity|reflexivity|reflexivity|].
  vm_compute. discriminate.
Qed.

(** The example of the documentation of [colorize], and a prefix inside
    which the pattern matches. *)
Example colorize_documented :
  colorize (L := MiniRegex.lib) xterm " file.py:30:foo bar baz" "bar"
           [("30:", "file.py:")] =
    Ret (" " +:+ MAGENTA xterm +:+ "file.py:" +:+ GREEN xterm +:+ "30:"
         +:+ NO_COLOR xterm +:+ "foo " +:+ RED xterm +:+ "bar" +:+ NO_COLOR xterm
         +:+ " baz").
Proof. reflexivity. Qed.

Example colorize_pattern_in_prefix :
  colorize (L := MiniRegex.lib) xterm " file.py:30:foo" "fi" [("30:", "file.py:")] =
    Ret (" " +:+ MAGENTA xterm +:+ "file.py:" +:+ GREEN xterm +:+ "30:"
         +:+ NO_COLOR xterm +:+ "foo").
Proof. reflexivity. Qed.

(** On a terminal without colors every prefix is escaped, and the same
    input comes back unchanged. *)
Example colorize_without_colors :
  colorize (L := MiniRegex.lib) no_colors
           " b.po:1:see aXpo:30: a.po:30:x" "zzz" [("1:", "b.po:"); ("30:", "a.po:")] =
    Ret " b.po:1:see aXpo:30: a.po:30:x".
Proof. reflexivity. Qed.

(** ** The reference implementation on standard cases *)

Example parse_rejects_malformed :
  MiniRegex.parse "(a" = MiniRegex.Malformed /\
  MiniRegex.parse "a)" = MiniRegex.Malformed /\
  MiniRegex.parse "*a" = MiniRegex.Malformed /\
  MiniRegex.parse "a|*" = MiniRegex.Malformed /\
  MiniRegex.parse "a\" = MiniRegex.Malformed.
Proof. repeat split. Qed.

Example parse_leaves_out :
  MiniRegex.parse "(?i)a" = MiniRegex.Unsupported /\
  MiniRegex.parse "[ab]" = MiniRegex.Unsupported /\
  MiniRegex.parse "a**" = MiniRegex.Unsupported /\
  MiniRegex.parse "\d" = MiniRegex.Unsupported.
Proof. repeat split. Qed.

Example sub_empty_matches :
  regex.sub (L := MiniRegex.lib) "x*" "-" "abxd" 0 = Ret "-a-b--d-" /\
  regex.sub (L := MiniRegex.lib) "x*" "-" "abxd" 2 = Ret "-a-bxd" /\
  regex.sub (L := MiniRegex.lib) "\b" "-" "ab cd" 0 = Ret "-ab- -cd-".
Proof. repeat split. Qed.

Example sub_backtracks :
  regex.sub (L := MiniRegex.lib) "(a|ab)(c|bcd)(d*)" "[\g<0>]" "abcd" 0 = Ret "[abcd]" /\
  regex.sub (L := MiniRegex.lib) "(a*)*b" "<\g<0>>" "aaab aab" 0 = Ret "<aaab> <aab>" /\
  regex.sub (L := MiniRegex.lib) "(|a)*" "<\g<0>>" "baa" 0 = Ret "<>b<><a><><a><>".
Proof. repeat split. Qed.

Example escape_specials :
  regex.escape (Lib := MiniRegex.lib) "a.b (c)" = "a\.b\ \(c\)" /\
  regex.escape (Lib := MiniRegex.lib) (RED xterm) = ESC +:+ "\[31m".
Proof. repeat split. Qed.

(** * Further properties of the code *)

(** ** The scan, for any pattern *)

Section ScanLaws.
Context {L : regex.Lib}.
Variable pofile : string -> option (list polib.POEntry).

Lemma scan_entries_acc pattern ns tr filename entries results :
  scan_entries pattern ns tr filename entries results =
    rbind (scan_entries pattern ns tr filename entries [])
          (fun found => Ret (results ++ found)).
Proof.
  revert results. induction entries as [|entry rest IH]; intros results; simpl.
  - now rewrite app_nil_r.
  - destruct (entry_selected pattern ns tr entry) as [selected|e]; simpl;
      [|reflexivity].
    rewrite IH. symmetry. rewrite IH.
    destruct (scan_entries pattern ns tr filename rest []) as [found|e]; simpl;
      [|reflexivity].
    destruct selected; simpl; [|reflexivity].
    now rewrite <- app_assoc.
Qed.

Lemma scan_files_acc pattern ns tr path errors results :
  scan_files (polib.or_oserror pofile) pattern ns tr path errors results =
    match scan_files (polib.or_oserror pofile) pattern ns tr path [] [] with
    | (t, Ret (e, r)) => (t, Ret (errors ++ e, results ++ r))
    | (t, Raise x) => (t, Raise x)
    end.
Proof.
  revert errors results.
  induction path as [|filename rest IH]; intros errors results; simpl.
  - now rewrite !app_nil_r.
  - rewrite ?or_oserror_unfold; destruct (pofile filename) as [entries|]; simpl.
    + rewrite scan_entries_acc.
      destruct (scan_entries pattern ns tr filename entries []) as [found|e];
        simpl; [|reflexivity].
      rewrite IH. symmetry. rewrite IH.
      destruct (scan_files (polib.or_oserror pofile) pattern ns tr rest [] []) as [t [[e r]|x]];
        simpl; [|reflexivity].
      now rewrite <- app_assoc.
    + rewrite IH. symmetry. rewrite IH.
      destruct (scan_files (polib.or_oserror pofile) pattern ns tr rest [] []) as [t [[e r]|x]];
        simpl; [|reflexivity].
      now rewrite <- app_assoc.
Qed.

Lemma scan_files_app pattern ns tr path1 path2 errors results :
  scan_files (polib.or_oserror pofile) pattern ns tr (path1 ++ path2) errors results =
    io_bind (scan_files (polib.or_oserror pofile) pattern ns tr path1 errors results)
            (fun er => scan_files (polib.or_oserror pofile) pattern ns tr path2 (fst er) (snd er)).
Proof.
  revert errors results.
  induction path1 as [|filename rest IH]; intros errors results; simpl.
  - now destruct (scan_files (polib.or_oserror pofile) pattern ns tr path2 errors results).
  - rewrite ?or_oserror_unfold; destruct (pofile filename) as [entries|]; simpl.
    + destruct (scan_entries pattern ns tr filename entries results) as [found|e];
        simpl; [|reflexivity].
      rewrite IH.
      destruct (scan_files (polib.or_oserror pofile) pattern ns tr rest errors found) as [t [er|x]];
        simpl; [|reflexivity].
      now destruct (scan_files (polib.or_oserror pofile) pattern ns tr path2 (fst er) (snd er)).
    + rewrite IH.
      destruct (scan_files (polib.or_oserror pofile) pattern ns tr rest
                  (errors ++ [not_a_po_file filename]) results) as [t [er|x]];
        simpl; [|reflexivity].
      now destruct (scan_files (polib.or_oserror pofile) pattern ns tr path2 (fst er) (snd er)).
Qed.

(** X1: searching two lists of files one after the other is searching
    their concatenation: the catalogs opened, the warnings and the matches of
    the second search follow those of the first; an error of the first search
    ends everything, and the second list is not even opened. *)
Theorem find_in_po_app pattern path1 path2 ns tr :
  find_in_po (polib.or_oserror pofile) pattern (path1 ++ path2) ns tr =
    match find_in_po (polib.or_oserror pofile) pattern path1 ns tr with
    | (t1, Raise x) => (t1, Raise x)
    | (t1, Ret (e1, r1)) =>
        match find_in_po (polib.or_oserror pofile) pattern path2 ns tr with
        | (t2, Ret (e2, r2)) => (t1 ++ t2, Ret (e1 ++ e2, r1 ++ r2))
        | (t2, Raise x) => (t1 ++ t2, Raise x)
        end
    end.
Proof.
  unfold find_in_po. rewrite scan_files_app.
  destruct (scan_files (polib.or_oserror pofile) pattern ns tr path1 [] []) as [t1 [[e1 r1]|x]];
    simpl; [|reflexivity].
  rewrite scan_files_acc.
  now destruct (scan_files (polib.or_oserror pofile) pattern ns tr path2 [] []) as [t2 [[e2 r2]|x]].
Qed.

Lemma scan_entries_translated pattern ns tr filename entries results :
  scan_entries pattern ns tr filename
    (List.filter (fun e => truthy (polib.msgstr e)) entries) results =
  scan_entries pattern ns tr filename entries results.
Proof.
  revert results. induction entries as [|entry rest IH]; intros results; simpl;
    [reflexivity|].
  destruct (truthy (polib.msgstr entry)) eqn:Ht; simpl.
  - destruct (entry_selected pattern ns tr entry); simpl; [apply IH|reflexivity].
  - unfold entry_selected. rewrite Ht. simpl. apply IH.
Qed.

(** X2: the entries without translation are invisible to the search.
    Dropping them from every catalog changes neither the matches, nor the
    warnings, nor whether and where a malformed pattern raises its error. *)
Theorem find_in_po_ignores_untranslated pattern path ns tr :
  find_in_po (polib.or_oserror (translated_only pofile)) pattern path ns tr =
  find_in_po (polib.or_oserror pofile) pattern path ns tr.
Proof.
  unfold find_in_po. generalize (@nil string) (@nil Match).
  induction path as [|filename rest IH]; intros errors results; simpl;
    [reflexivity|].
  rewrite !or_oserror_unfold. unfold translated_only at 1.
  destruct (pofile filename) as [entries|]; simpl.
  - rewrite scan_entries_translated.
    destruct (scan_entries pattern ns tr filename entries results); simpl;
      [now rewrite IH|reflexivity].
  - now rewrite IH.
Qed.

Lemma scan_files_opens pattern ns tr path errors results :
  exists opened rest,
    path = opened ++ rest /\
    trace (scan_files (polib.or_oserror pofile) pattern ns tr path errors results) = map Parse opened /\
    forall e r,
      outcome (scan_files (polib.or_oserror pofile) pattern ns tr path errors results) = Ret (e, r) ->
      rest = [] /\ e = errors ++ warnings pofile path.
Proof.
  revert errors results.
  induction path as [|filename tail IH]; intros errors results; simpl.
  - exists [], []. repeat split; try reflexivity.
    simpl in H. injection H as <- _. now rewrite app_nil_r.
  - rewrite ?or_oserror_unfold; destruct (pofile filename) as [entries|]; simpl.
    + destruct (scan_entries pattern ns tr filename entries results) as [found|x];
        simpl.
      * destruct (IH errors found) as (opened & rest & Hp & Ht & Hr).
        destruct (scan_files (polib.or_oserror pofile) pattern ns tr tail errors found) as [t o].
        simpl in *. exists (filename :: opened), rest.
        split; [now rewrite Hp|]. split; [now rewrite Ht|]. exact Hr.
      * exists [filename], tail. repeat split; discriminate.
    + destruct (IH (errors ++ [not_a_po_file filename]) results)
        as (opened & rest & Hp & Ht & Hr).
      destruct (scan_files (polib.or_oserror pofile) pattern ns tr tail
                  (errors ++ [not_a_po_file filename]) results) as [t o].
      simpl in *. exists (filename :: opened), rest.
      split; [now rewrite Hp|]. split; [now rewrite Ht|].
      intros e r Ho. destruct (Hr e r Ho) as [-> ->].
      now rewrite <- app_assoc.
Qed.

Lemma filter_sublist_implies {A} (f g : A -> bool) (l : list A) :
  (forall x, f x = true -> g x = true) ->
  sublist (List.filter f l) (List.filter g l).
Proof.
  intros Hfg. induction l as [|x l IH]; simpl; [constructor|].
  destruct (f x) eqn:Hf.
  - rewrite (Hfg x Hf). now constructor.
  - destruct (g x); [now constructor|exact IH].
Qed.

Lemma map_sublist {A B} (f : A -> B) (l1 l2 : list A) :
  sublist l1 l2 -> sublist (map f l1) (map f l2).
Proof. induction 1; simpl; now constructor. Qed.

Lemma selects_sides p ns tr ns' tr' entry :
  sides_included ns tr ns' tr' ->
  selects p ns tr entry = true -> selects p ns' tr' entry = true.
Proof.
  intros [Hs Ht]. rewrite !selects_spec.
  intros [Hne [[Hns Hm]|[Htr Hm]]]; split; auto.
Qed.

(** X4: with a pattern that compiles, searching more sides never loses a
    match: the matches found with fewer sides searched are a sub-sequence,
    in the same order, of the matches found with more. *)
Theorem find_in_po_monotone_in_sides pattern p path ns tr ns' tr' :
  regex.compile pattern = Some p ->
  sides_included ns tr ns' tr' ->
  exists errors fewer more,
    outcome (find_in_po (polib.or_oserror pofile) pattern path ns tr) = Ret (errors, fewer) /\
    outcome (find_in_po (polib.or_oserror pofile) pattern path ns' tr') = Ret (errors, more) /\
    sublist fewer more.
Proof.
  intros Hp Hsides.
  exists (warnings pofile path), (matches_of pofile p ns tr path),
         (matches_of pofile p ns' tr' path).
  rewrite !(find_in_po_compiled pofile _ p _ _ _ Hp). repeat split.
  unfold matches_of. induction path as [|filename rest IH]; simpl; [constructor|].
  apply sublist_app; [|exact IH].
  unfold matches_of_file. rewrite ?or_oserror_unfold; destruct (pofile filename) as [entries|]; [|constructor].
  apply map_sublist, filter_sublist_implies.
  intros entry. now apply selects_sides.
Qed.

(** With both sides off the pattern is never applied. *)
Lemma find_in_po_sides_off pattern path :
  find_in_po (polib.or_oserror pofile) pattern path true false =
    (map Parse path, Ret (warnings pofile path, [])).
Proof.
  unfold find_in_po.
  assert (He : forall filename entries results,
             scan_entries pattern true false filename entries results = Ret results).
  { intros filename entries. induction entries as [|entry rest IH]; intros results;
      simpl; [reflexivity|].
    unfold entry_selected. destruct (truthy (polib.msgstr entry)); simpl; apply IH. }
  assert (Hf : forall errors results,
             scan_files (polib.or_oserror pofile) pattern true false path errors results =
               (map Parse path, Ret (errors ++ warnings pofile path, results))).
  { induction path as [|filename rest IH]; intros errors results; simpl.
    - now rewrite app_nil_r.
    - rewrite ?or_oserror_unfold; destruct (pofile filename) as [entries|]; simpl.
      + rewrite He. simpl. now rewrite IH.
      + rewrite IH. simpl. now rewrite <- app_assoc. }
  apply Hf.
Qed.

End ScanLaws.

(** ** Resolving the paths *)

Section PathLaws.
Variable isfile : string -> bool.
Variable isdir : string -> bool.
Variable glob : string -> list string.
Variable os_sep : ascii.
Variable argv0 : string.

(** X5: [process_path] in closed form.  Without a path it exits with
    status 0, or under [-r] returns the catalogs below the working directory.
    Otherwise the first offending path stops it with one error on standard
    error and status 1; when no path is offending it prints nothing and
    returns, in the order of the arguments, each file as it is and in place
    of each directory the catalogs below it. *)
Theorem process_path_closed_form path recursive :
  process_path isfile isdir glob os_sep argv0 path recursive =
    match path with
    | [] =>
        if recursive then ([], Ret (glob "**/*.po"))
        else ([], Raise (SystemExit 0))
    | _ :: _ =>
        match List.find (offending isfile isdir recursive) path with
        | Some bad => ([Err (path_error isdir argv0 bad)], Raise (SystemExit 1))
        | None => ([], Ret (resolved isfile glob os_sep path))
        end
    end.
Proof.
  unfold process_path. destruct path as [|elt rest].
  - now destruct recursive.
  - cbn [length Nat.eqb]. now rewrite process_elts_first_offending.
Qed.

Lemma resolved_files path :
  Forall (fun elt => isfile elt = true) path ->
  resolved isfile glob os_sep path = path.
Proof.
  induction 1 as [|elt rest Helt _ IH]; simpl; [reflexivity|].
  now rewrite Helt, IH.
Qed.

Lemma find_offending_files path recursive :
  Forall (fun elt => isfile elt = true) path ->
  List.find (offending isfile isdir recursive) path = None.
Proof.
  induction 1 as [|elt rest Helt _ IH]; simpl; [reflexivity|].
  unfold offending at 1. now rewrite Helt.
Qed.

Lemma find_offending_without_r path :
  List.find (offending isfile isdir false) path = None ->
  Forall (fun elt => isfile elt = true) path.
Proof.
  induction path as [|elt rest IH]; simpl; [constructor|].
  unfold offending at 1. rewrite orb_true_r, andb_true_r.
  destruct (isfile elt) eqn:Helt; simpl; [|discriminate].
  intros H. constructor; auto.
Qed.

(** X6: a list of plain files goes through [process_path] unchanged, with
    or without [-r]; and without [-r] nothing else goes through: when
    [process_path] returns, every path is a file and the result is the list
    of the arguments itself. *)
Theorem process_path_plain_files path :
  (path <> [] -> Forall (fun elt => isfile elt = true) path ->
   forall recursive,
     process_path isfile isdir glob os_sep argv0 path recursive = ([], Ret path)) /\
  (forall files,
     outcome (process_path isfile isdir glob os_sep argv0 path false) = Ret files ->
     path <> [] /\ Forall (fun elt => isfile elt = true) path /\ files = path).
Proof.
  split.
  - intros Hne Hfiles recursive. rewrite process_path_closed_form.
    destruct path as [|elt rest]; [contradiction|].
    now rewrite (find_offending_files _ _ Hfiles), (resolved_files _ Hfiles).
  - intros files. rewrite process_path_closed_form.
    destruct path as [|elt rest]; [discriminate|].
    destruct (List.find _ (elt :: rest)) eqn:Hfind; [discriminate|].
    unfold outcome. simpl. intros H. injection H as <-.
    pose proof (find_offending_without_r _ Hfind) as Hfiles.
    split; [discriminate|]. split; [exact Hfiles|].
    exact (resolved_files _ Hfiles).
Qed.

End PathLaws.

Lemma process_path_plain_files_witness :
  process_path sample_isfile sample_isdir sample_glob "/"%char "pogrep"
               ["b.po"; "a.po"] true = ([], Ret ["b.po"; "a.po"]) /\
  (["b.po"; "a.po"] <> [] /\
   Forall (fun elt => sample_isfile elt = true) ["b.po"; "a.po"] /\
   ["b.po"; "a.po"] = ["b.po"; "a.po"]).
Proof.
  split.
  - apply (proj1 (process_path_plain_files sample_isfile sample_isdir sample_glob
                    "/"%char "pogrep" ["b.po"; "a.po"])).
    + discriminate.
    + repeat constructor.
  - apply (proj2 (process_path_plain_files sample_isfile sample_isdir sample_glob
                    "/"%char "pogrep" ["b.po"; "a.po"])).
    reflexivity.
Defined.

Example process_path_expands_directories :
  process_path tree_isfile sample_isdir tree_glob "/"%char "pogrep"
               ["locale"; "a.po"] true =
    ([], Ret ["locale/fr/b.po"; "locale/de/b.po"; "a.po"]).
Proof. reflexivity. Qed.

(** ** Excluding directories *)

Lemma append_cons (c : ascii) (a b : string) :
  String c a +:+ b = String c (a +:+ b).
Proof. reflexivity. Qed.

Lemma append_empty (b : string) : "" +:+ b = b.
Proof. reflexivity. Qed.

Lemma prefix_spec (a b : string) :
  String.prefix a b = true <-> exists post, b = a +:+ post.
Proof.
  revert b. induction a as [|x a IH]; intros b.
  - split; [intros _; now exists b|intros _; now destruct b].
  - destruct b as [|y b]; simpl.
    + split; [discriminate|intros [post H]; discriminate].
    + destruct (ascii_dec x y) as [->|Hxy].
      * rewrite IH. split; intros [post H]; exists post;
          rewrite append_cons in *; congruence.
      * split; [discriminate|]. intros [post H].
        rewrite append_cons in H. congruence.
Qed.

Lemma contains_spec (needle hay : string) :
  contains needle hay = true <-> exists pre post, hay = pre +:+ needle +:+ post.
Proof.
  induction hay as [|c rest IH].
  - cbn [contains]. rewrite orb_false_r, prefix_spec. split.
    + intros [post H]. now exists "", post.
    + intros (pre & post & H). destruct pre; [now exists post|discriminate].
  - cbn [contains]. rewrite orb_true_iff, prefix_spec, IH. split.
    + intros [[post H]|(pre & post & H)].
      * now exists "", post.
      * exists (String c pre), post. now rewrite append_cons, H.
    + intros (pre & post & H). destruct pre as [|x pre].
      * left. now exists post.
      * right. exists pre, post. rewrite append_cons in H. congruence.
Qed.

Lemma rstrip_trailing (c : ascii) (s : string) :
  rstrip c (s +:+ String c EmptyString) = rstrip c s.
Proof.
  induction s as [|a s IH].
  - rewrite append_empty. simpl. now rewrite Ascii.eqb_refl.
  - rewrite append_cons. simpl. now rewrite IH.
Qed.

Lemma truthy_append (c : ascii) (s t : string) : truthy (String c s +:+ t) = true.
Proof. reflexivity. Qed.

(** X7: the filter of [--exclude-dir].  No option and an empty option keep
    every file.  Otherwise the files kept are those of the list, in the same
    order, whose path does not contain, anywhere, the option without its
    trailing separators followed by one separator. *)
Theorem exclude_keeps (os_sep : ascii) (files : list string) :
  exclude os_sep None files = files /\
  exclude os_sep (Some "") files = files /\
  forall c rest,
    sublist (exclude os_sep (Some (String c rest)) files) files /\
    forall f,
      In f (exclude os_sep (Some (String c rest)) files) <->
      In f files /\
      ~ exists pre post,
          f = pre +:+ (rstrip os_sep (String c rest) +:+ sep os_sep) +:+ post.
Proof.
  split; [reflexivity|]. split; [reflexivity|].
  intros c rest. unfold exclude. cbn [truthy]. split.
  - apply filter_is_sublist.
  - intros f. rewrite filter_In, negb_true_iff, <- contains_spec.
    now destruct (contains _ f).
Qed.

(** X8: trailing separators of a non-empty [--exclude-dir] do not count:
    the option with one more separator at its end excludes the same files. *)
Theorem exclude_ignores_trailing_separator (os_sep : ascii) (dir : string)
    (files : list string) :
  dir <> "" ->
  exclude os_sep (Some (dir +:+ sep os_sep)) files = exclude os_sep (Some dir) files.
Proof.
  intros Hdir. destruct dir as [|c rest]; [contradiction|].
  unfold exclude, sep. rewrite truthy_append. cbn [truthy].
  now rewrite rstrip_trailing.
Qed.

Lemma exclude_ignores_trailing_separator_witness :
  "locale/de" <> "" /\
  exclude "/"%char (Some "locale/de/") ["a.po"; "locale/fr/b.po"; "locale/de/b.po"] =
  exclude "/"%char (Some "locale/de") ["a.po"; "locale/fr/b.po"; "locale/de/b.po"].
Proof.
  split; [discriminate|].
  apply (exclude_ignores_trailing_separator "/"%char "locale/de"). discriminate.
Defined.

Example exclude_one_directory :
  exclude "/"%char (Some "de//") ["a.po"; "locale/fr/b.po"; "locale/de/b.po"] =
    ["a.po"; "locale/fr/b.po"] /\
  exclude "/"%char (Some "/") ["a.po"; "locale/fr/b.po"; "locale/de/b.po"] = ["a.po"].
Proof. split; reflexivity. Qed.

(** ** The table *)

Lemma several_files (matches : list Match) :
  (1 <? size (list_to_set (map file matches) : gset string))%nat = true <->
  exists m1 m2, In m1 matches /\ In m2 matches /\ file m1 <> file m2.
Proof.
  set (files := list_to_set (map file matches) : gset string).
  assert (Hin : forall f, f ∈ files <-> exists m, In m matches /\ file m = f).
  { intros f. unfold files.
    rewrite elem_of_list_to_set, list_elem_of_In, in_map_iff.
    split; intros (m & H1 & H2); exists m; auto. }
  rewrite Nat.ltb_lt. split.
  - intros Hsize.
    destruct (size_pos_elem_of files) as [f1 Hf1]; [lia|].
    assert (Hrest : (0 < size (files ∖ {[f1]}))%nat).
    { rewrite size_difference by set_solver. rewrite size_singleton. lia. }
    destruct (size_pos_elem_of _ Hrest) as [f2 Hf2].
    apply elem_of_difference in Hf2 as [Hf2 Hne].
    apply Hin in Hf1 as (m1 & Hm1 & <-). apply Hin in Hf2 as (m2 & Hm2 & <-).
    exists m1, m2. repeat split; auto. set_solver.
  - intros (m1 & m2 & Hm1 & Hm2 & Hne).
    assert (Hsub : ({[file m1]} ∪ {[file m2]} : gset string) ⊆ files).
    { apply union_subseteq. split; apply singleton_subseteq_l, Hin; eauto. }
    apply subseteq_size in Hsub.
    rewrite size_union in Hsub by set_solver.
    rewrite !size_singleton in Hsub. lia.
Qed.

Section TableLaws.
Context {L : regex.Lib}.
Variable colors : Colors.
Variable term_width : Z.
Variable fill : string -> Z -> result string.
Variable tabulate : list (string * string) -> string.

Lemma layout_filled wrap matches line_number nfiles prefixes table :
  (forall s, fill s ((term_width - 7) `div` 2)%Z = Ret (wrap s)) ->
  layout term_width fill matches line_number nfiles prefixes table =
    Ret (prefixes ++ table_prefixes line_number (1 <? nfiles)%nat matches,
         table ++ table_rows wrap line_number (1 <? nfiles)%nat matches).
Proof.
  intros Hfill. revert prefixes table.
  induction matches as [|m rest IH]; intros prefixes table; simpl.
  - unfold table_prefixes. destruct line_number; simpl; now rewrite !app_nil_r.
  - rewrite !Hfill. simpl. rewrite IH.
    unfold table_prefixes. destruct line_number; simpl;
      now rewrite <- !app_assoc.
Qed.

(** X9: the table that [display_results] prints, when [textwrap.fill]
    accepts the width and turns a text [s] into [wrap s].  There is one row
    for each match, in order: the original text on the left, the translation
    on the right, both wrapped.  Under [--line-number] the left cell starts
    with the line number and a colon, preceded by the file name and a colon
    exactly when the matches come from more than one file, and the same pairs
    are handed to [colorize] as prefixes; without the flag there is no
    prefix.  The whole table is colored and printed in one piece. *)
Theorem display_results_table wrap matches pattern line_number several :
  (forall s, fill s ((term_width - 7) `div` 2)%Z = Ret (wrap s)) ->
  (several = true <->
   exists m1 m2, In m1 matches /\ In m2 matches /\ file m1 <> file m2) ->
  display_results colors term_width fill tabulate matches pattern line_number false =
    io_bind
      (io_lift (colorize colors
                  (tabulate (table_rows wrap line_number several matches))
                  pattern (table_prefixes line_number several matches)))
      print.
Proof.
  intros Hfill Hseveral.
  assert (Hs : (1 <? size (list_to_set (map file matches) : gset string))%nat
               = several).
  { rewrite <- several_files in Hseveral.
    destruct several, (1 <? size _)%nat; try reflexivity.
    - now apply Hseveral.
    - symmetry. now apply Hseveral. }
  unfold display_results.
  rewrite (layout_filled wrap _ _ _ _ _ Hfill), Hs.
  unfold io_lift at 1. rewrite io_bind_ret. cbn [fst snd app].
  symmetry. apply io_surjective.
Qed.

(** [display_results] prints only on standard output, and prints nothing
    when it raises. *)
Lemma display_results_quiet matches pattern line_number files_with_matches :
  parsed_of (trace (display_results colors term_width fill tabulate matches pattern
                      line_number files_with_matches)) = [] /\
  stderr_of (trace (display_results colors term_width fill tabulate matches pattern
                      line_number files_with_matches)) = [] /\
  forall e,
    outcome (display_results colors term_width fill tabulate matches pattern
               line_number files_with_matches) = Raise e ->
    trace (display_results colors term_width fill tabulate matches pattern
             line_number files_with_matches) = [].
Proof.
  unfold display_results. destruct files_with_matches.
  - rewrite (print_each_emit
               (fun f => Out (MAGENTA colors +:+ f +:+ NO_COLOR colors))).
    simpl. repeat split; try discriminate.
    + induction (elements _); simpl; auto.
    + induction (elements _); simpl; auto.
  - destruct (layout _ _ _ _ _ _ _) as [pt|e]; simpl; [|auto].
    destruct (colorize _ _ _ _) as [text|e]; simpl; repeat split; auto; discriminate.
Qed.

End TableLaws.

Lemma display_results_table_witness :
  (forall s, simple_fill s ((80 - 7) `div` 2)%Z = Ret (id s)) /\
  (true = true <->
   exists m1 m2, In m1 two_matches /\ In m2 two_matches /\ file m1 <> file m2) /\
  display_results (L := MiniRegex.lib) xterm 80 simple_fill simple_tabulate
                  two_matches "hello" true false =
    io_bind
      (io_lift (colorize (L := MiniRegex.lib) xterm
                  (simple_tabulate (table_rows id true true two_matches))
                  "hello" (table_prefixes true true two_matches)))
      print.
Proof.
  assert (Hfill : forall s, simple_fill s ((80 - 7) `div` 2)%Z = Ret (id s))
    by reflexivity.
  assert (Hseveral : true = true <->
            exists m1 m2, In m1 two_matches /\ In m2 two_matches /\ file m1 <> file m2).
  { split; [intros _|reflexivity].
    exists {| file := "a.po"; line := 3; msgid := "hello"; msgstr := "bonjour" |},
           {| file := "b.po"; line := 9; msgid := "hello again";
              msgstr := "rebonjour" |}.
    simpl. repeat split; auto; discriminate. }
  split; [exact Hfill|]. split; [exact Hseveral|].
  exact (display_results_table (L := MiniRegex.lib) xterm 80 simple_fill
           simple_tabulate id two_matches "hello" true true Hfill Hseveral).
Defined.

Example display_results_two_files :
  display_results (L := MiniRegex.lib) xterm 80 simple_fill simple_tabulate
                  two_matches "again" true false =
    ([Out (" " +:+ MAGENTA xterm +:+ "a.po:" +:+ GREEN xterm +:+ "3:"
           +:+ NO_COLOR xterm +:+ "hello | bonjour" +:+ String "010"%char
           (" " +:+ MAGENTA xterm +:+ "b.po:" +:+ GREEN xterm +:+ "9:"
            +:+ NO_COLOR xterm +:+ "hello " +:+ RED xterm +:+ "again"
            +:+ NO_COLOR xterm +:+ " | rebonjour"))],
     Ret tt).
Proof. vm_compute. reflexivity. Qed.

(** ** The whole run, for any pattern *)

Lemma parsed_of_app (t1 t2 : list event) :
  parsed_of (t1 ++ t2) = parsed_of t1 ++ parsed_of t2.
Proof. unfold parsed_of. now rewrite flat_map_app. Qed.

Lemma parsed_of_parse (files : list string) : parsed_of (map Parse files) = files.
Proof. induction files; simpl; congruence. Qed.

Lemma parsed_of_err (lines : list string) : parsed_of (map Err lines) = [].
Proof. induction lines; simpl; auto. Qed.

Section RunLaws.
Context {L : regex.Lib}.
Variable colors : Colors.
Variable pofile : string -> option (list polib.POEntry).
Variable term_width : Z.
Variable fill : string -> Z -> result string.
Variable tabulate : list (string * string) -> string.
Variable isfile : string -> bool.
Variable isdir : string -> bool.
Variable glob : string -> list string.
Variable os_sep : ascii.
Variable argv0 : string.

Local Abbreviation run := (main colors (polib.or_oserror pofile) term_width fill tabulate
                                isfile isdir glob os_sep argv0).
Local Abbreviation paths args :=
  (process_path isfile isdir glob os_sep argv0
                (argparse.path args) (argparse.recursive args)).
Local Abbreviation pattern_of args :=
  (build_pattern (argparse.pattern args) (argparse.fixed_strings args)
                 (argparse.word_regexp args) (argparse.ignore_case args)).
Local Abbreviation scanned args files :=
  (exclude os_sep (argparse.exclude_dir args) files).
Local Abbreviation show := (display_results colors term_width fill tabulate).
Local Abbreviation scan args files :=
  (find_in_po (polib.or_oserror pofile) (pattern_of args) (scanned args files)
              (argparse.no_source args) (argparse.translation args)).

(** The stages of [main], one after the other. *)
Lemma main_stages args :
  run args =
    match paths args with
    | (t0, Raise e) => (t0, Raise e)
    | (t0, Ret files) =>
        match scan args files with
        | (t1, Raise e) => (t0 ++ t1, Raise e)
        | (t1, Ret found) =>
            (t0 ++ t1
               ++ (if argparse.no_messages args then [] else map Err (fst found))
               ++ trace (show (snd found) (pattern_of args)
                              (argparse.line_number args)
                              (argparse.files_with_matches args)),
             outcome (show (snd found) (pattern_of args)
                           (argparse.line_number args)
                           (argparse.files_with_matches args)))
        end
    end.
Proof.
  unfold main.
  destruct (paths args) as [t0 [files|e]]; [|reflexivity].
  rewrite io_bind_ret. cbn beta.
  destruct (scan args files) as [t1 [found|e]]; [|reflexivity].
  rewrite io_bind_ret. cbn beta.
  destruct (argparse.no_messages args).
  - unfold io_ret. rewrite io_bind_ret. reflexivity.
  - unfold print_stderr. rewrite (print_each_emit Err), io_bind_ret. reflexivity.
Qed.

Lemma process_path_trace path recursive :
  stdout_of (trace (process_path isfile isdir glob os_sep argv0 path recursive)) = [] /\
  parsed_of (trace (process_path isfile isdir glob os_sep argv0 path recursive)) = [].
Proof.
  rewrite process_path_closed_form. destruct path as [|elt rest].
  - now destruct recursive.
  - now destruct (List.find _ (elt :: rest)).
Qed.

(** X10: a run that ends with an exception has printed no result: whatever
    the arguments, the catalogs and the pattern, when [main] raises
    ([SystemExit], [regex.error] or an error of the layout) standard output
    is still empty. *)
Theorem failed_run_prints_no_result args e :
  outcome (run args) = Raise e ->
  stdout_of (trace (run args)) = [].
Proof.
  rewrite main_stages.
  destruct (process_path_trace (argparse.path args) (argparse.recursive args))
    as [Hout0 _].
  destruct (paths args) as [t0 [files|e0]]; simpl in Hout0; [|now intros _].
  destruct (scan_files_opens pofile (pattern_of args) (argparse.no_source args)
              (argparse.translation args) (scanned args files) [] [])
    as (opened & rest & _ & Ht1 & _).
  unfold find_in_po.
  destruct (scan_files (polib.or_oserror pofile) _ _ _ (scanned args files) [] []) as [t1 [found|e1]];
    simpl in Ht1; subst t1.
  - intros Hraise. simpl in Hraise.
    destruct (display_results_quiet colors term_width fill tabulate (snd found)
                (pattern_of args) (argparse.line_number args)
                (argparse.files_with_matches args)) as (_ & _ & Hquiet).
    simpl. rewrite (Hquiet e Hraise).
    rewrite !stdout_of_app, Hout0, stdout_of_parse.
    destruct (argparse.no_messages args); simpl; now rewrite ?stdout_of_err.
  - intros _. simpl. now rewrite stdout_of_app, Hout0, stdout_of_parse.
Qed.


(** X12: a catalog is opened only if the paths resolved and it is one of
    the resolved files that [--exclude-dir] keeps; an excluded file is never
    opened. *)
Theorem run_opens_only_kept_files args f :
  In f (parsed_of (trace (run args))) ->
  exists files,
    outcome (paths args) = Ret files /\ In f (scanned args files).
Proof.
  rewrite main_stages.
  destruct (process_path_trace (argparse.path args) (argparse.recursive args))
    as [_ Hp0].
  destruct (paths args) as [t0 [files|e0]]; simpl in Hp0.
  - intros Hin. exists files. split; [reflexivity|].
    destruct (scan_files_opens pofile (pattern_of args) (argparse.no_source args)
                (argparse.translation args) (scanned args files) [] [])
      as (opened & rest & Hfiles & Ht1 & _).
    unfold find_in_po in Hin.
    destruct (scan_files (polib.or_oserror pofile) _ _ _ (scanned args files) [] [])
      as [t1 [found|e1]]; simpl in Ht1; subst t1; simpl in Hin.
    + destruct (display_results_quiet colors term_width fill tabulate (snd found)
                  (pattern_of args) (argparse.line_number args)
                  (argparse.files_with_matches args)) as (Hq & _ & _).
      rewrite !parsed_of_app, Hp0, parsed_of_parse, Hq in Hin.
      assert (Hw : parsed_of (if argparse.no_messages args then []
                              else map Err (fst found)) = []).
      { destruct (argparse.no_messages args); [reflexivity|apply parsed_of_err]. }
      rewrite Hw, !app_nil_r in Hin. simpl in Hin.
      rewrite Hfiles. apply in_or_app. now left.
    + rewrite parsed_of_app, Hp0, parsed_of_parse in Hin. simpl in Hin.
      rewrite Hfiles. apply in_or_app. now left.
  - simpl. rewrite Hp0. intros [].
Qed.

End RunLaws.

Lemma find_in_po_monotone_in_sides_witness :
  regex.compile (Lib := MiniRegex.lib) "bonjour" = Some (compiled_or_eps "bonjour") /\
  sides_included false false false true /\
  exists errors fewer more,
    outcome (find_in_po (L := MiniRegex.lib) (polib.or_oserror sample_pofile) "bonjour" ["a.po"; "b.po"]
               false false) = Ret (errors, fewer) /\
    outcome (find_in_po (L := MiniRegex.lib) (polib.or_oserror sample_pofile) "bonjour" ["a.po"; "b.po"]
               false true) = Ret (errors, more) /\
    sublist fewer more.
Proof.
  assert (Hs : sides_included false false false true) by (split; auto).
  split; [reflexivity|]. split; [exact Hs|].
  exact (find_in_po_monotone_in_sides (L := MiniRegex.lib) sample_pofile "bonjour"
           (compiled_or_eps "bonjour") ["a.po"; "b.po"] false false false true
           eq_refl Hs).
Defined.

Example find_in_po_more_sides :
  outcome (find_in_po (L := MiniRegex.lib) (polib.or_oserror sample_pofile) "bonjour" ["a.po"; "b.po"]
             false false) = Ret ([], []) /\
  outcome (find_in_po (L := MiniRegex.lib) (polib.or_oserror sample_pofile) "bonjour" ["a.po"; "b.po"]
             false true) =
    Ret ([], [ {| file := "a.po"; line := 3; msgid := "hello"; msgstr := "bonjour" |};
               {| file := "b.po"; line := 9; msgid := "hello again";
                  msgstr := "rebonjour" |} ]).
Proof. split; vm_compute; reflexivity. Qed.

Lemma failed_run_prints_no_result_witness :
  outcome (sample_main (default_args "(" ["README"; "a.po"])) = Raise RegexError /\
  stdout_of (trace (sample_main (default_args "(" ["README"; "a.po"]))) = [].
Proof.
  split; [reflexivity|].
  apply (failed_run_prints_no_result (L := MiniRegex.lib)
           xterm sample_pofile 80 simple_fill simple_tabulate
           sample_isfile sample_isdir sample_glob "/"%char "pogrep"
           (default_args "(" ["README"; "a.po"]) RegexError).
  reflexivity.
Defined.

Lemma run_opens_only_kept_files_witness :
  In "locale/fr/b.po"
     (parsed_of (trace (tree_main
        (with_exclude_dir "locale/de"
           (default_args "hello" ["a.po"; "locale/fr/b.po"; "locale/de/b.po"]))))) /\
  exists files,
    outcome (process_path tree_isfile sample_isdir tree_glob "/"%char "pogrep"
               ["a.po"; "locale/fr/b.po"; "locale/de/b.po"] false) = Ret files /\
    In "locale/fr/b.po" (exclude "/"%char (Some "locale/de") files).
Proof.
  assert (H : In "locale/fr/b.po"
     (parsed_of (trace (tree_main
        (with_exclude_dir "locale/de"
           (default_args "hello" ["a.po"; "locale/fr/b.po"; "locale/de/b.po"]))))))
    by (vm_compute; auto).
  split; [exact H|].
  exact (run_opens_only_kept_files (L := MiniRegex.lib)
           xterm tree_pofile 80 simple_fill simple_tabulate
           tree_isfile sample_isdir tree_glob "/"%char "pogrep"
           (with_exclude_dir "locale/de"
              (default_args "hello" ["a.po"; "locale/fr/b.po"; "locale/de/b.po"]))
           "locale/fr/b.po" H).
Defined.

Example run_skips_excluded_directory :
  parsed_of (trace (tree_main
     (with_exclude_dir "locale/de"
        (default_args "hello" ["a.po"; "locale/fr/b.po"; "locale/de/b.po"])))) =
    ["a.po"; "locale/fr/b.po"].
Proof. vm_compute. reflexivity. Qed.

(** ** Where the scan stops *)

Section ScanStops.
Context {L : regex.Lib}.
Variable pofile : string -> polib.parsed.

Lemma scan_entries_runs pattern ns tr filename entries results :
  malformed pattern && existsb (applies ns tr) entries = false ->
  scan_entries pattern ns tr filename entries results =
    Ret (results ++
         match regex.compile pattern with
         | Some p => map (to_match filename) (List.filter (selects p ns tr) entries)
         | None => []
         end).
Proof.
  unfold malformed. destruct (regex.compile pattern) as [p|] eqn:Hp; simpl.
  - intros _. exact (scan_entries_compiled pattern p ns tr filename entries results Hp).
  - intros Hno. rewrite (scan_entries_malformed pattern ns tr filename entries results Hp).
    now rewrite Hno, app_nil_r.
Qed.

Lemma found_by_cons pattern ns tr filename rest :
  found_by pofile pattern ns tr (filename :: rest) =
    match regex.compile pattern, pofile filename with
    | Some p, polib.Parsed entries =>
        map (to_match filename) (List.filter (selects p ns tr) entries)
    | _, _ => []
    end ++ found_by pofile pattern ns tr rest.
Proof.
  unfold found_by. destruct (regex.compile pattern) as [p|]; simpl.
  - unfold matches_of_file at 1, readable at 1.
    now destruct (pofile filename).
  - now destruct (pofile filename).
Qed.

(** A scan that nothing stops goes through every file. *)
Lemma scan_files_through pattern ns tr path errors results :
  Forall (fun f => halts (malformed pattern) ns tr pofile f = None) path ->
  scan_files pofile pattern ns tr path errors results =
    (map Parse path,
     Ret (errors ++ refusals pofile path,
          results ++ found_by pofile pattern ns tr path)).
Proof.
  intros Hpath. revert errors results.
  induction Hpath as [|filename rest Hf _ IH]; intros errors results.
  - simpl. unfold found_by. simpl.
    destruct (regex.compile pattern); now rewrite !app_nil_r.
  - rewrite found_by_cons. simpl. unfold halts in Hf.
    destruct (pofile filename) as [entries| |e]; simpl.
    + destruct (malformed pattern && existsb (applies ns tr) entries) eqn:Hno;
        [discriminate|].
      rewrite (scan_entries_runs _ _ _ _ _ _ Hno). simpl. rewrite IH. simpl.
      destruct (regex.compile pattern); now rewrite <- !app_assoc.
    + rewrite IH. simpl.
      destruct (regex.compile pattern); now rewrite <- !app_assoc.
    + discriminate.
Qed.

(** A scan stops at the first file that stops it. *)
Lemma scan_files_stops pattern ns tr before f after e errors results :
  Forall (fun g => halts (malformed pattern) ns tr pofile g = None) before ->
  halts (malformed pattern) ns tr pofile f = Some e ->
  scan_files pofile pattern ns tr (before ++ f :: after) errors results =
    (map Parse (before ++ [f]), Raise e).
Proof.
  intros Hbefore Hf. revert errors results.
  induction Hbefore as [|g rest Hg _ IH]; intros errors results; simpl.
  - unfold halts in Hf. destruct (pofile f) as [entries| |e']; simpl.
    + destruct (malformed pattern && existsb (applies ns tr) entries) eqn:Hyes;
        [|discriminate].
      injection Hf as <-. apply andb_true_iff in Hyes as [Hm Happ].
      unfold malformed in Hm.
      destruct (regex.compile pattern) eqn:Hp; [discriminate|].
      rewrite (scan_entries_malformed pattern ns tr f entries results Hp), Happ.
      reflexivity.
    + discriminate.
    + now injection Hf as <-.
  - unfold halts in Hg. destruct (pofile g) as [entries| |e']; simpl.
    + destruct (malformed pattern && existsb (applies ns tr) entries) eqn:Hno;
        [discriminate|].
      rewrite (scan_entries_runs _ _ _ _ _ _ Hno). simpl. now rewrite IH.
    + now rewrite IH.
    + discriminate.
Qed.


(** X3: what [find_in_po] does to the outside world, for any pattern and
    any behaviour of [polib.pofile], is to open the files of the list, each
    one once, in order and without a gap.  Two things stop it, and the first
    file at which one of them happens is the last one opened: an exception
    of [polib.pofile] other than [OSError], which propagates, and a record to
    which a malformed pattern is applied, which raises [regex.error].  When
    neither happens it opens every file and returns one warning for each
    file on which [polib.pofile] raised [OSError], in the order of the list,
    and the matches of the files read. *)
Theorem find_in_po_opens_in_order pattern path ns tr :
  (Forall (fun f => halts (malformed pattern) ns tr pofile f = None) path ->
   find_in_po pofile pattern path ns tr =
     (map Parse path,
      Ret (refusals pofile path, found_by pofile pattern ns tr path))) /\
  (forall before f after e,
     path = before ++ f :: after ->
     Forall (fun g => halts (malformed pattern) ns tr pofile g = None) before ->
     halts (malformed pattern) ns tr pofile f = Some e ->
     find_in_po pofile pattern path ns tr = (map Parse (before ++ [f]), Raise e)).
Proof.
  split.
  - intros Hpath. unfold find_in_po. now rewrite (scan_files_through _ _ _ _ _ _ Hpath).
  - intros before f after e -> Hbefore Hf. unfold find_in_po.
    exact (scan_files_stops pattern ns tr before f after e [] [] Hbefore Hf).
Qed.

(** X14: when [polib.pofile] raises [OSError] on every file of the list,
    the search applies the pattern nowhere: whatever the pattern, it opens
    every file and returns one warning for each, in order, and no match. *)
Theorem find_in_po_without_catalog pattern path ns tr :
  Forall (fun filename => pofile filename = polib.OSError) path ->
  find_in_po pofile pattern path ns tr =
    (map Parse path, Ret (map not_a_po_file path, [])).
Proof.
  intros Hnone. unfold find_in_po.
  assert (H : forall errors,
             scan_files pofile pattern ns tr path errors [] =
               (map Parse path, Ret (errors ++ map not_a_po_file path, []))).
  { induction Hnone as [|filename rest Hf _ IH]; intros errors; simpl.
    - now rewrite app_nil_r.
    - rewrite Hf. simpl. rewrite IH. simpl. now rewrite <- app_assoc. }
  apply H.
Qed.

End ScanStops.

Lemma find_in_po_opens_in_order_witness :
  Forall (fun f => halts (malformed (L := MiniRegex.lib) "hello") false false
                     binary_pofile f = None) ["README"; "a.po"] /\
  halts (malformed (L := MiniRegex.lib) "hello") false false binary_pofile "binary.po"
    = Some UnicodeDecodeError /\
  find_in_po (L := MiniRegex.lib) binary_pofile "hello" ["README"; "a.po"] false false =
    ([Parse "README"; Parse "a.po"],
     Ret (["README doesn't seem to be a .po file"],
          [ {| file := "a.po"; line := 3; msgid := "hello"; msgstr := "bonjour" |} ])) /\
  find_in_po (L := MiniRegex.lib) binary_pofile "hello"
             ["README"; "a.po"; "binary.po"; "b.po"] false false =
    ([Parse "README"; Parse "a.po"; Parse "binary.po"], Raise UnicodeDecodeError).
Proof.
  assert (H : Forall (fun f => halts (malformed (L := MiniRegex.lib) "hello") false false
                                  binary_pofile f = None) ["README"; "a.po"])
    by (repeat constructor).
  split; [exact H|]. split; [reflexivity|]. split.
  - exact (proj1 (find_in_po_opens_in_order (L := MiniRegex.lib) binary_pofile
                    "hello" ["README"; "a.po"] false false) H).
  - exact (proj2 (find_in_po_opens_in_order (L := MiniRegex.lib) binary_pofile
                    "hello" ["README"; "a.po"; "binary.po"; "b.po"] false false)
                 ["README"; "a.po"] "binary.po" ["b.po"] UnicodeDecodeError
                 eq_refl H eq_refl).
Defined.

Lemma find_in_po_without_catalog_witness :
  Forall (fun filename => polib.or_oserror sample_pofile filename = polib.OSError)
         ["README"; "notes.txt"] /\
  find_in_po (L := MiniRegex.lib) (polib.or_oserror sample_pofile) "("
             ["README"; "notes.txt"] false true =
    ([Parse "README"; Parse "notes.txt"],
     Ret (["README doesn't seem to be a .po file";
           "notes.txt doesn't seem to be a .po file"], [])).
Proof.
  assert (H : Forall (fun filename =>
                        polib.or_oserror sample_pofile filename = polib.OSError)
                     ["README"; "notes.txt"]) by (repeat constructor).
  split; [exact H|].
  exact (find_in_po_without_catalog (L := MiniRegex.lib)
           (polib.or_oserror sample_pofile) "(" ["README"; "notes.txt"] false true H).
Defined.

(** ** The whole run, for any parser *)

Lemma applies_sides_off (entries : list polib.POEntry) :
  existsb (applies true false) entries = false.
Proof.
  induction entries as [|entry rest IH]; simpl; [reflexivity|].
  unfold applies at 1. simpl. now rewrite andb_false_r.
Qed.

Section RunStops.
Context {L : regex.Lib}.
Variable colors : Colors.
Variable pofile : string -> polib.parsed.
Variable term_width : Z.
Variable fill : string -> Z -> result string.
Variable tabulate : list (string * string) -> string.
Variable isfile : string -> bool.
Variable isdir : string -> bool.
Variable glob : string -> list string.
Variable os_sep : ascii.
Variable argv0 : string.

Local Abbreviation run := (main colors pofile term_width fill tabulate
                                isfile isdir glob os_sep argv0).
Local Abbreviation paths args :=
  (process_path isfile isdir glob os_sep argv0
                (argparse.path args) (argparse.recursive args)).
Local Abbreviation pattern_of args :=
  (build_pattern (argparse.pattern args) (argparse.fixed_strings args)
                 (argparse.word_regexp args) (argparse.ignore_case args)).
Local Abbreviation scanned args files :=
  (exclude os_sep (argparse.exclude_dir args) files).
Local Abbreviation show := (display_results colors term_width fill tabulate).
Local Abbreviation warned args files :=
  (if argparse.no_messages args then []
   else map Err (refusals pofile (scanned args files))).


(** A run that the scan does not stop. *)
Lemma run_scanned args files :
  outcome (paths args) = Ret files ->
  Forall (fun g => halts (malformed (pattern_of args)) (argparse.no_source args)
                     (argparse.translation args) pofile g = None)
         (scanned args files) ->
  run args =
    (map Parse (scanned args files) ++ warned args files
       ++ trace (show (found_by pofile (pattern_of args) (argparse.no_source args)
                         (argparse.translation args) (scanned args files))
                      (pattern_of args) (argparse.line_number args)
                      (argparse.files_with_matches args)),
     outcome (show (found_by pofile (pattern_of args) (argparse.no_source args)
                      (argparse.translation args) (scanned args files))
                   (pattern_of args) (argparse.line_number args)
                   (argparse.files_with_matches args))).
Proof.
  intros Hpaths Hall. unfold main.
  rewrite (process_path_returns _ _ _ _ _ _ _ _ Hpaths), io_bind_ret. cbn beta.
  unfold find_in_po. rewrite (scan_files_through pofile _ _ _ _ [] [] Hall).
  rewrite io_bind_ret. cbn [fst snd app].
  destruct (argparse.no_messages args).
  - unfold io_ret. rewrite io_bind_ret. reflexivity.
  - unfold print_stderr. rewrite (print_each_emit Err), io_bind_ret. reflexivity.
Qed.


Lemma halts_sides_off malformed f :
  (forall e, pofile f <> polib.Raises e) ->
  halts malformed true false pofile f = None.
Proof.
  intros Hf. unfold halts. destruct (pofile f) as [entries| |e].
  - now rewrite applies_sides_off, andb_false_r.
  - reflexivity.
  - now destruct (Hf e).
Qed.

Lemma found_by_sides_off pattern path : found_by pofile pattern true false path = [].
Proof.
  unfold found_by. destruct (regex.compile pattern); [|reflexivity].
  apply matches_of_sides_off.
Qed.

(** X13: with the source side off and the translation side not on, in a
    run whose paths resolve and in which [polib.pofile] raises nothing but
    [OSError], the scan applies the pattern nowhere, be it malformed: it
    opens every file and finds no match.  Under [--files-with-matches] the
    run then prints the warnings, nothing on standard output, and ends
    normally.  In table mode the pattern is still applied when the empty
    table is colored: a malformed pattern raises [regex.error] there, after
    the warnings were printed. *)
Theorem run_without_sides args files :
  outcome (paths args) = Ret files ->
  argparse.no_source args = true ->
  argparse.translation args = false ->
  Forall (fun f => forall e, pofile f <> polib.Raises e) (scanned args files) ->
  find_in_po pofile (pattern_of args) (scanned args files) true false =
    (map Parse (scanned args files),
     Ret (refusals pofile (scanned args files), [])) /\
  (argparse.files_with_matches args = true ->
   run args = (map Parse (scanned args files) ++ warned args files, Ret tt)) /\
  (argparse.files_with_matches args = false ->
   regex.compile (pattern_of args) = None ->
   run args =
     (map Parse (scanned args files) ++ warned args files, Raise RegexError)).
Proof.
  intros Hpaths Hns Htr Hsafe.
  assert (Hall : forall m,
             Forall (fun g => halts m true false pofile g = None) (scanned args files)).
  { intros m. induction Hsafe as [|f rest Hf _ IH]; constructor;
      [now apply halts_sides_off|exact IH]. }
  assert (Hrun : forall o,
             show [] (pattern_of args) (argparse.line_number args)
                  (argparse.files_with_matches args) = ([], o) ->
             run args = (map Parse (scanned args files) ++ warned args files, o)).
  { intros o Hshow.
    pose proof (run_scanned args files Hpaths) as Hrun.
    rewrite Hns, Htr in Hrun. rewrite (Hrun (Hall _)).
    rewrite found_by_sides_off, Hshow. simpl. now rewrite app_nil_r. }
  split; [|split].
  - unfold find_in_po. rewrite (scan_files_through pofile _ _ _ _ [] [] (Hall _)).
    now rewrite found_by_sides_off.
  - intros Hflag. apply Hrun. rewrite Hflag.
    unfold display_results. simpl. now rewrite elements_empty.
  - intros Hflag Hp. apply Hrun. rewrite Hflag.
    exact (display_nothing _ _ _ _ _ _ false Hp).
Qed.

End RunStops.


Lemma run_without_sides_witness :
  Forall (fun f => forall e, polib.or_oserror sample_pofile f <> polib.Raises e)
         ["README"; "a.po"] /\
  sample_main (with_files_with_matches
                 (with_sides true false (default_args "(" ["README"; "a.po"]))) =
    ([Parse "README"; Parse "a.po"; Err "README doesn't seem to be a .po file"],
     Ret tt) /\
  sample_main (with_sides true false (default_args "(" ["README"; "a.po"])) =
    ([Parse "README"; Parse "a.po"; Err "README doesn't seem to be a .po file"],
     Raise RegexError).
Proof.
  assert (H : Forall (fun f => forall e,
                        polib.or_oserror sample_pofile f <> polib.Raises e)
                     ["README"; "a.po"])
    by (repeat constructor; intros e; discriminate).
  split; [exact H|]. split.
  - exact (proj1 (proj2 (run_without_sides (L := MiniRegex.lib)
             xterm (polib.or_oserror sample_pofile) 80 simple_fill simple_tabulate
             sample_isfile sample_isdir sample_glob "/"%char "pogrep"
             (with_files_with_matches
                (with_sides true false (default_args "(" ["README"; "a.po"])))
             ["README"; "a.po"] eq_refl eq_refl eq_refl H)) eq_refl).
  - exact (proj2 (proj2 (run_without_sides (L := MiniRegex.lib)
             xterm (polib.or_oserror sample_pofile) 80 simple_fill simple_tabulate
             sample_isfile sample_isdir sample_glob "/"%char "pogrep"
             (with_sides true false (default_args "(" ["README"; "a.po"]))
             ["README"; "a.po"] eq_refl eq_refl eq_refl H)) eq_refl eq_refl).
Defined.

(** C8: a catalog whose bytes do not decode makes [polib.pofile] raise
    [UnicodeDecodeError], which the [except OSError] of [find_in_po] does not
    catch: [pogrep hello a.po binary.po b.po] opens [a.po] and [binary.po]
    and ends there with the exception; [b.po] is never opened, no warning is
    collected or printed, and the match of [a.po] is not shown. *)
Theorem undecodable_catalog_aborts_the_run :
  binary_pofile "binary.po" = polib.Raises UnicodeDecodeError /\
  find_in_po (L := MiniRegex.lib) binary_pofile "hello" ["a.po"; "binary.po"; "b.po"]
             false false =
    ([Parse "a.po"; Parse "binary.po"], Raise UnicodeDecodeError) /\
  binary_main (default_args "hello" ["a.po"; "binary.po"; "b.po"]) =
    ([Parse "a.po"; Parse "binary.po"], Raise UnicodeDecodeError) /\
  stderr_of (trace (binary_main (default_args "hello" ["a.po"; "binary.po"; "b.po"])))
    = [] /\
  stdout_of (trace (binary_main (default_args "hello" ["a.po"; "binary.po"; "b.po"])))
    = [].
Proof. repeat split. Qed.

(** The same run with a file on which [polib.pofile] raises [OSError]
    instead goes on to [b.po] and prints one warning. *)
Example refused_catalog_is_skipped :
  parsed_of (trace (binary_main (default_args "hello" ["a.po"; "README"; "b.po"]))) =
    ["a.po"; "README"; "b.po"] /\
  stderr_of (trace (binary_main (default_args "hello" ["a.po"; "README"; "b.po"]))) =
    ["README doesn't seem to be a .po file"].
Proof. split; vm_compute; reflexivity. Qed.
